(** * Customer management backend: a shallow embedding of the request handlers

    The development follows the layout of the backend:

    - [models.py]     the mapped classes and the column rules they declare
                      (primary keys, NOT NULL, CHECK constraints, column
                      defaults, NUMERIC(14,2), INTEGER, cascade rules);
    - [schemas.py]    the request and response records;
    - [ai_service.py] the two template fillers;
    - [main.py]       the route handlers, written in a small state and
                      exception monad over the stored tables and the asset
                      directory.

    Conventions of the embedding.

    - A Python [str] is the list of its code points.  Literals are written
      as UTF-8 text and decoded by [u].
    - Identifiers are the canonical text of the UUID; the value drawn by
      [uuid.uuid4] for a new row is an input of the request ([uuid4]).
    - A handler receives the authenticated user; [auth.py] is not part of
      the sources.
    - The columns filled by the database clock (created_at, updated_at,
      uploaded_at) are left out: no handler reads or writes them.
    - A query without ORDER BY returns rows in stored order, and a new row is
      stored after the existing ones.
    - An exception that escapes a handler leaves the tables as they were:
      the session is closed without a commit. *)

From Stdlib Require Import List NArith ZArith Bool Lia String Ascii.
Import ListNotations.

Set Implicit Arguments.

(* ================================================================== *)
(** * Python strings *)
(* ================================================================== *)

Definition str := list N.

Fixpoint str_eqb (a b : str) : bool :=
  match a, b with
  | [], [] => true
  | x :: a', y :: b' => N.eqb x y && str_eqb a' b'
  | _, _ => false
  end.

(** Decoding of a UTF-8 literal into code points.  A byte that does not
    start a complete sequence is kept as it is. *)
Definition cont (a : ascii) : N := N.land (N_of_ascii a) 63.

Fixpoint u (s : string) : str :=
  match s with
  | EmptyString => []
  | String a s1 =>
      let b := N_of_ascii a in
      if (b <? 192)%N then b :: u s1
      else if (b <? 224)%N then
        match s1 with
        | String a1 s2 => (N.land b 31 * 64 + cont a1)%N :: u s2
        | _ => b :: u s1
        end
      else if (b <? 240)%N then
        match s1 with
        | String a1 (String a2 s3) =>
            (N.land b 15 * 4096 + cont a1 * 64 + cont a2)%N :: u s3
        | _ => b :: u s1
        end
      else
        match s1 with
        | String a1 (String a2 (String a3 s4)) =>
            (N.land b 7 * 262144 + cont a1 * 4096 + cont a2 * 64 + cont a3)%N
              :: u s4
        | _ => b :: u s1
        end
  end.

(** The character [U+0022], which a literal cannot hold. *)
Definition dquote : str := [34%N].

(** [str.isspace] on one code point: the characters that [str.strip]
    removes when called without argument. *)
Definition isspace (c : N) : bool :=
  ((9 <=? c) && (c <=? 13) || (28 <=? c) && (c <=? 32)
   || (c =? 133) || (c =? 160) || (c =? 5760)
   || (8192 <=? c) && (c <=? 8202)
   || (c =? 8232) || (c =? 8233) || (c =? 8239) || (c =? 8287)
   || (c =? 12288))%N.

Fixpoint lstrip (s : str) : str :=
  match s with
  | [] => []
  | c :: s' => if isspace c then lstrip s' else s
  end.

Fixpoint rstrip (s : str) : str :=
  match s with
  | [] => []
  | c :: s' =>
      match rstrip s' with
      | [] => if isspace c then [] else [c]
      | r => c :: r
      end
  end.

(** [s.strip()] *)
Definition strip (s : str) : str := rstrip (lstrip s).

(** Truth value of a [str] and of an optional [str]: [None] and the empty
    string are false. *)
Definition truthy (s : str) : bool :=
  match s with [] => false | _ => true end.

Definition opt_truthy (o : option str) : bool :=
  match o with Some s => truthy s | None => false end.

(** [a or b] on an optional string with a string default. *)
Definition or_else (o : option str) (d : str) : str :=
  match o with
  | Some s => if truthy s then s else d
  | None => d
  end.

(** [s.startswith(p)] *)
Fixpoint startswith (s p : str) : bool :=
  match p, s with
  | [], _ => true
  | x :: p', y :: s' => N.eqb x y && startswith s' p'
  | _ :: _, [] => false
  end.

(** [str(x)] of an optional string inside an f-string. *)
Definition format_opt (o : option str) : str :=
  match o with Some s => s | None => u "None" end.

(* ================================================================== *)
(** * Dates *)
(* ================================================================== *)

(** [datetime.date]; the class keeps 1 <= year <= 9999, 1 <= month <= 12
    and 1 <= day <= 31. *)
Record date := { year : N; month : N; day : N }.

(** A decimal field of fixed width, zero filled. *)
Fixpoint zero_padded (width : nat) (n : N) : str :=
  match width with
  | O => []
  | S w => zero_padded w (n / 10) ++ [(48 + n mod 10)%N]
  end.

(** [d.strftime('%Y-%m-%d')] *)
Definition strftime_Ymd (d : date) : str :=
  zero_padded 4 (year d) ++ u "-" ++ zero_padded 2 (month d)
    ++ u "-" ++ zero_padded 2 (day d).

(** The sort key of a [Date] column. *)
Definition date_ordinal (d : date) : Z :=
  Z.of_N (year d * 10000 + month d * 100 + day d).

(* ================================================================== *)
(** * Decimal amounts and the NUMERIC(14,2) column *)
(* ================================================================== *)

(** A finite [Decimal]: [coefficient / 10 ^ places]. *)
Record Decimal := { coefficient : Z; places : nat }.


Definition dec_eqb (a b : Decimal) : bool :=
  (coefficient a * 10 ^ Z.of_nat (places b)
   =? coefficient b * 10 ^ Z.of_nat (places a))%Z.

Definition dec_zero : Decimal := {| coefficient := 0; places := 0 |}.

(** Division rounding half away from zero, as NUMERIC rounds. *)
Definition div_half_away (n q : Z) : Z :=
  (Z.sgn n * ((2 * Z.abs n + q) / (2 * q)))%Z.

(** The amount in hundredths that a scale-2 column keeps. *)
Definition hundredths (d : Decimal) : Z :=
  if (places d <=? 2)%nat
  then (coefficient d * 10 ^ Z.of_nat (2 - places d))%Z
  else div_half_away (coefficient d) (10 ^ Z.of_nat (places d - 2)).

(** What a NUMERIC(14,2) column stores for a value, or [None] when the
    rounded value needs more than 14 digits (numeric field overflow). *)
Definition numeric_14_2 (d : Decimal) : option Decimal :=
  let h := hundredths d in
  if (Z.abs h <? 10 ^ 14)%Z
  then Some {| coefficient := h; places := 2 |}
  else None.

(** The range of an INTEGER column. *)
Definition int4_ok (n : Z) : bool :=
  ((- 2147483648 <=? n) && (n <=? 2147483647))%Z.

(* ================================================================== *)
(** * models.py: the mapped classes *)
(* ================================================================== *)

Module AppUser.
Record t := {
  id : str;
  email : str;
  display_name : option str;
  password_hash : str;
  locale : str;
  timezone : str;
  role : str
}.
End AppUser.

Module Customer.
Record t := {
  id : str;
  name : str;
  logo_url : option str;
  arr_usd : option Decimal;
  notes : option str;
  created_by : option str
}.
End Customer.

Module Contact.
Record t := {
  id : str;
  customer_id : str;
  name : str;
  role : option str;
  phone : option str;
  email : option str
}.
End Contact.

Module Meeting.
Record t := {
  id : str;
  customer_id : str;
  meeting_date : date;
  _title_hint : option str;
  raw_notes : option str;
  created_by : option str
}.

(** The [title] property. *)
Definition title (self : t) : str :=
  let date_str := strftime_Ymd (meeting_date self) in
  let hint :=
    match _title_hint self with
    | Some h => if truthy h && truthy (strip h) then strip h else u "Meeting"
    | None => u "Meeting"
    end in
  date_str ++ u " – " ++ hint.
End Meeting.

Module MeetingAsset.
Record t := {
  id : str;
  meeting_id : str;
  kind : str;
  file_url : str;
  file_name : option str
}.
End MeetingAsset.

Module MeetingSummary.
Record t := {
  id : str;
  meeting_id : str;
  version : Z;
  language : str;
  summary_md : str;
  model : str;
  prompt_template_version : option str;
  created_by_ai : bool
}.
End MeetingSummary.

Module EmailDraft.
Record t := {
  id : str;
  meeting_id : str;
  version : Z;
  subject : str;
  body_html : str;
  to_emails : list (option str);
  cc_emails : list (option str);
  language : str;
  created_by_ai : bool
}.
End EmailDraft.

(** The stored state: the six tables the handlers touch and the asset
    directory (path and content of each written file). *)
Record World := {
  customers : list Customer.t;
  contacts : list Contact.t;
  meetings : list Meeting.t;
  meeting_assets : list MeetingAsset.t;
  meeting_summaries : list MeetingSummary.t;
  email_drafts : list EmailDraft.t;
  files : list (str * list N)
}.


(* ================================================================== *)
(** * Exceptions and the handler monad *)
(* ================================================================== *)

Inductive Error :=
| HTTPException (status_code : Z) (detail : str)
| DatabaseError    (* a statement the database rejects: primary key,
                      NOT NULL, CHECK, value out of range *)
| TypeError
| AttributeError
| OSError.

Inductive Result (A : Type) :=
| Ok (a : A)
| Raise (e : Error).
Arguments Raise {A} e.

(** A handler step: the outcome and the world it leaves. *)
Definition M (A : Type) := World -> Result A * World.

Definition ret {A} (a : A) : M A := fun w => (Ok a, w).
Definition raise {A} (e : Error) : M A := fun w => (Raise e, w).
Definition bind {A B} (m : M A) (k : A -> M B) : M B :=
  fun w =>
    match m w with
    | (Ok a, w') => k a w'
    | (Raise e, w') => (Raise e, w')
    end.
Definition gets {A} (f : World -> A) : M A := fun w => (Ok (f w), w).
Definition modify (f : World -> World) : M unit := fun w => (Ok tt, f w).

Declare Scope handler_scope.
Delimit Scope handler_scope with handler.
Notation "x <- m ;; k" := (bind m (fun x => k))
  (at level 100, m at next level, right associativity) : handler_scope.
Notation "m ;;; k" := (bind m (fun _ => k))
  (at level 100, right associativity) : handler_scope.
Open Scope handler_scope.

(* ================================================================== *)
(** * Queries *)
(* ================================================================== *)

(** [query.first()] *)
Definition first {A} (rows : list A) : option A := hd_error rows.

(** [query.order_by(key.desc())]: a stable insertion sort, greatest key
    first. *)
Fixpoint insert_desc {A} (key : A -> Z) (x : A) (l : list A) : list A :=
  match l with
  | [] => [x]
  | y :: l' =>
      if (key x <=? key y)%Z then y :: insert_desc key x l' else x :: l
  end.

Fixpoint order_by_desc {A} (key : A -> Z) (l : list A) : list A :=
  match l with
  | [] => []
  | x :: l' => insert_desc key x (order_by_desc key l')
  end.

(** [seq[a:]] and [seq[:b]] for non-negative constants. *)
Definition slice_to {A} (n : nat) (l : list A) : list A := firstn n l.
Definition slice_from {A} (n : nat) (l : list A) : list A := skipn n l.

Definition is_some {A} (o : option A) : bool :=
  match o with Some _ => true | None => false end.

(* ================================================================== *)
(** * ai_service.py: the template fillers *)
(* ================================================================== *)

Definition nl : str := [10%N].

(** The text of the Hebrew and of the English f-string of
    [generate_meeting_summary], between the line break that follows the
    opening quotes and the one before the closing quotes. *)
Definition summary_text_he (meeting : Meeting.t) : str :=
  u "# סיכום פגישה - " ++ Meeting.title meeting ++ nl ++ nl
    ++ u "## סדר יום" ++ nl ++ u "- דיון בנושאים עיקריים" ++ nl
    ++ u "- החלטות שהתקבלו" ++ nl ++ nl ++ u "## החלטות מרכזיות" ++ nl
    ++ or_else (Meeting.raw_notes meeting) (u "אין הערות זמינות") ++ nl
    ++ nl ++ u "## פעולות נדרשות" ++ nl ++ u "- [ ] מעקב אחר החלטות" ++ nl
    ++ u "- [ ] תיאום פגישה הבאה" ++ nl ++ nl ++ u "## צעדים הבאים" ++ nl
    ++ u "- המשך תיאום" ++ nl ++ u "- דיווח לצוות" ++ nl ++ nl
    ++ u "## השפעה על ARR" ++ nl ++ u "לא צוין".

Definition summary_text_en (meeting : Meeting.t) : str :=
  u "# Meeting Summary - " ++ Meeting.title meeting ++ nl ++ nl
    ++ u "## Agenda" ++ nl ++ u "- Discussion of key topics" ++ nl
    ++ u "- Decisions made" ++ nl ++ nl ++ u "## Key Decisions" ++ nl
    ++ or_else (Meeting.raw_notes meeting) (u "No notes available") ++ nl
    ++ nl ++ u "## Action Items" ++ nl ++ u "- [ ] Follow up on decisions"
    ++ nl ++ u "- [ ] Schedule next meeting" ++ nl ++ nl
    ++ u "## Next Steps" ++ nl ++ u "- Continue coordination" ++ nl
    ++ u "- Report to team" ++ nl ++ nl ++ u "## ARR Impact" ++ nl
    ++ u "Not specified".

Definition generate_meeting_summary (meeting : Meeting.t) (language : str)
  : str :=
  let summary_template :=
    if str_eqb language (u "he")
    then nl ++ summary_text_he meeting ++ nl
    else nl ++ summary_text_en meeting ++ nl in
  strip summary_template.

(** The text of the two bodies of [generate_email_draft], delimited in the
    same way. *)
Definition email_text_he (meeting : Meeting.t)
  (customer_name meeting_date : str) : str :=
  u "<div dir=" ++ dquote ++ u "rtl" ++ dquote ++ u ">" ++ nl
    ++ u "<p>שלום,</p>" ++ nl ++ nl
    ++ u "<p>אני שולח/ת סיכום הפגישה שלנו מהיום (" ++ meeting_date
    ++ u ") עם " ++ customer_name ++ u ".</p>" ++ nl ++ nl
    ++ u "<h3>נושאים עיקריים שנדונו:</h3>" ++ nl ++ u "<ul>" ++ nl
    ++ u "<li>" ++ or_else (Meeting.raw_notes meeting) (u "לא צוינו פרטים")
    ++ u "</li>" ++ nl ++ u "</ul>" ++ nl ++ nl
    ++ u "<h3>פעולות נדרשות:</h3>" ++ nl ++ u "<ul>" ++ nl
    ++ u "<li>מעקב אחר החלטות שהתקבלו</li>" ++ nl
    ++ u "<li>תיאום הפגישה הבאה</li>" ++ nl ++ u "</ul>" ++ nl ++ nl
    ++ u "<p>אשמח לשמוע הערות או שאלות.</p>" ++ nl ++ nl ++ u "<p>תודה,<br>"
    ++ nl ++ u "[השם שלך]</p>" ++ nl ++ u "</div>".

Definition email_text_en (meeting : Meeting.t)
  (customer_name meeting_date : str) : str :=
  u "<p>Hello,</p>" ++ nl ++ nl
    ++ u "<p>I'm sending a summary of our meeting today (" ++ meeting_date
    ++ u ") with " ++ customer_name ++ u ".</p>" ++ nl ++ nl
    ++ u "<h3>Key Topics Discussed:</h3>" ++ nl ++ u "<ul>" ++ nl
    ++ u "<li>"
    ++ or_else (Meeting.raw_notes meeting) (u "No details provided")
    ++ u "</li>" ++ nl ++ u "</ul>" ++ nl ++ nl
    ++ u "<h3>Action Items:</h3>" ++ nl ++ u "<ul>" ++ nl
    ++ u "<li>Follow up on decisions made</li>" ++ nl
    ++ u "<li>Schedule next meeting</li>" ++ nl ++ u "</ul>" ++ nl ++ nl
    ++ u "<p>Please let me know if you have any questions or feedback.</p>"
    ++ nl ++ nl ++ u "<p>Best regards,<br>" ++ nl ++ u "[Your Name]</p>".

(** [generate_email_draft]; [customer] is the row the relationship
    [meeting.customer] loads, if any.  The result is the pair of the
    [subject] and [body] entries of the returned dict. *)
Definition generate_email_draft (customer : option Customer.t)
  (meeting : Meeting.t) (language : str) : str * str :=
  let customer_name :=
    match customer with
    | Some c => Customer.name c
    | None => u "Customer"
    end in
  let meeting_date := strftime_Ymd (Meeting.meeting_date meeting) in
  if str_eqb language (u "he")
  then (customer_name ++ u " – " ++ meeting_date
          ++ u " – סיכום פגישה וצעדים הבאים",
        strip (nl ++ email_text_he meeting customer_name meeting_date ++ nl))
  else (customer_name ++ u " – " ++ meeting_date
          ++ u " – Meeting Summary & Next Steps",
        strip (nl ++ email_text_en meeting customer_name meeting_date ++ nl)).

(** [extract_text_from_image] *)
Definition extract_text_from_image (image_path : str) : str :=
  u "[OCR text from " ++ image_path ++ u " would appear here]".

(* ================================================================== *)
(** * The ILIKE operator *)
(* ================================================================== *)

(** A LIKE pattern: [%] stands for any run of characters, [_] for one
    character, and a backslash takes the next character literally. *)
Inductive like_token :=
| LikeAny
| LikeOne
| LikeChar (c : N).

Fixpoint like_pattern (p : str) : option (list like_token) :=
  match p with
  | [] => Some []
  | c :: p' =>
      if (c =? 92)%N then
        match p' with
        | [] => None
        | d :: p'' => option_map (cons (LikeChar d)) (like_pattern p'')
        end
      else if (c =? 37)%N then option_map (cons LikeAny) (like_pattern p')
      else if (c =? 95)%N then option_map (cons LikeOne) (like_pattern p')
      else option_map (cons (LikeChar c)) (like_pattern p')
  end.

Fixpoint like_match (p : list like_token) (s : str) : bool :=
  match p with
  | [] => match s with [] => true | _ => false end
  | LikeAny :: p' =>
      (fix skip (s : str) : bool :=
         like_match p' s
         || match s with [] => false | _ :: s' => skip s' end) s
  | LikeOne :: p' =>
      match s with [] => false | _ :: s' => like_match p' s' end
  | LikeChar c :: p' =>
      match s with [] => false | d :: s' => N.eqb c d && like_match p' s' end
  end.

(** Case folding of the letters A to Z; other characters are compared as
    they are. *)
Definition lower_char (c : N) : N :=
  if ((65 <=? c) && (c <=? 90))%N then (c + 32)%N else c.

Definition lower (s : str) : str := map lower_char s.

(** [column.ilike(pattern)]: [None] when the pattern ends in a lone
    escape character. *)
Definition ilike (pattern : str) : option (str -> bool) :=
  option_map (fun p s => like_match p (lower s)) (like_pattern (lower pattern)).

(* ================================================================== *)
(** * schemas.py: request and response records *)
(* ================================================================== *)

Record CustomerCreate := {
  cc_name : str;
  cc_logo_url : option str;
  cc_arr_usd : option Decimal;
  cc_notes : option str
}.

(** A field of an update model: left out of the request, or given (the
    given value may be [None]).  The attribute of an unset field reads as
    its default. *)
Inductive Field (A : Type) :=
| Unset
| Given (v : A).
Arguments Unset {A}.


Record CustomerUpdate := {
  cu_name : Field (option str);
  cu_logo_url : Field (option str);
  cu_arr_usd : Field (option Decimal);
  cu_notes : Field (option str)
}.

Record CustomerResponse := {
  cr_name : str;
  cr_logo_url : option str;
  cr_arr_usd : option Decimal;
  cr_notes : option str;
  cr_id : str;
  cr_last_meeting_date : option date;
  cr_contacts_count : option Z;
  cr_meetings_count : option Z
}.

Record ContactCreate := {
  cn_name : str;
  cn_role : option str;
  cn_phone : option str;
  cn_email : option str
}.

Record ContactResponse := {
  cnr_name : str;
  cnr_role : option str;
  cnr_phone : option str;
  cnr_email : option str;
  cnr_id : str;
  cnr_customer_id : str
}.


Record AssetResponse := {
  ar_id : str;
  ar_kind : str;
  ar_file_url : str;
  ar_file_name : option str
}.

Record SummaryResponse := {
  sr_id : str;
  sr_version : Z;
  sr_language : str;
  sr_summary_md : str;
  sr_model : str;
  sr_created_by_ai : bool
}.

Record EmailDraftResponse := {
  er_id : str;
  er_version : Z;
  er_subject : str;
  er_body_html : str;
  er_to_emails : list (option str);
  er_cc_emails : list (option str);
  er_language : str;
  er_created_by_ai : bool
}.

Record MeetingResponse := {
  mr_meeting_date : date;
  mr_title_hint : option str;
  mr_raw_notes : option str;
  mr_id : str;
  mr_customer_id : str;
  mr_title : str;
  mr_assets : list AssetResponse;
  mr_summaries : list SummaryResponse;
  mr_email_drafts : list EmailDraftResponse
}.

(** A multipart upload: the part's headers may lack a file name or a
    content type. *)
Record UploadFile := {
  filename : option str;
  content_type : option str;
  body : list N
}.

(* ================================================================== *)
(** * The session: writes that a commit applies *)
(* ================================================================== *)

Definition set_customers (l : list Customer.t) (w : World) : World :=
  {| customers := l; contacts := contacts w; meetings := meetings w;
     meeting_assets := meeting_assets w;
     meeting_summaries := meeting_summaries w;
     email_drafts := email_drafts w; files := files w |}.

Definition set_contacts (l : list Contact.t) (w : World) : World :=
  {| customers := customers w; contacts := l; meetings := meetings w;
     meeting_assets := meeting_assets w;
     meeting_summaries := meeting_summaries w;
     email_drafts := email_drafts w; files := files w |}.

Definition set_meetings (l : list Meeting.t) (w : World) : World :=
  {| customers := customers w; contacts := contacts w; meetings := l;
     meeting_assets := meeting_assets w;
     meeting_summaries := meeting_summaries w;
     email_drafts := email_drafts w; files := files w |}.

Definition set_meeting_assets (l : list MeetingAsset.t) (w : World) : World :=
  {| customers := customers w; contacts := contacts w; meetings := meetings w;
     meeting_assets := l;
     meeting_summaries := meeting_summaries w;
     email_drafts := email_drafts w; files := files w |}.

Definition set_meeting_summaries (l : list MeetingSummary.t) (w : World)
  : World :=
  {| customers := customers w; contacts := contacts w; meetings := meetings w;
     meeting_assets := meeting_assets w;
     meeting_summaries := l;
     email_drafts := email_drafts w; files := files w |}.

Definition set_email_drafts (l : list EmailDraft.t) (w : World) : World :=
  {| customers := customers w; contacts := contacts w; meetings := meetings w;
     meeting_assets := meeting_assets w;
     meeting_summaries := meeting_summaries w;
     email_drafts := l; files := files w |}.

Definition set_files (l : list (str * list N)) (w : World) : World :=
  {| customers := customers w; contacts := contacts w; meetings := meetings w;
     meeting_assets := meeting_assets w;
     meeting_summaries := meeting_summaries w;
     email_drafts := email_drafts w; files := l |}.

(** Whether a primary key is already stored. *)
Definition pk_taken {A} (id : A -> str) (x : str) (rows : list A) : bool :=
  existsb (fun r => str_eqb (id r) x) rows.

(** [db.add(row); db.commit(); db.refresh(row)] for each mapped class: the
    row as stored, or the error of the rejected INSERT. *)

(** customer: [arr_usd] takes the column default 0 when the attribute is
    [None], and is stored at scale 2. *)
Definition add_customer (c : Customer.t) : M Customer.t :=
  fun w =>
    let amount :=
      match Customer.arr_usd c with Some d => d | None => dec_zero end in
    match numeric_14_2 amount with
    | None => (Raise DatabaseError, w)
    | Some stored =>
        if pk_taken Customer.id (Customer.id c) (customers w)
        then (Raise DatabaseError, w)
        else
          let row :=
            {| Customer.id := Customer.id c;
               Customer.name := Customer.name c;
               Customer.logo_url := Customer.logo_url c;
               Customer.arr_usd := Some stored;
               Customer.notes := Customer.notes c;
               Customer.created_by := Customer.created_by c |} in
          (Ok row, set_customers (customers w ++ [row]) w)
    end.

(** contact: CHECK (customer_id IS NOT NULL AND email IS NOT NULL). *)
Definition add_contact (c : Contact.t) : M Contact.t :=
  fun w =>
    if negb (is_some (Contact.email c))
       || pk_taken Contact.id (Contact.id c) (contacts w)
    then (Raise DatabaseError, w)
    else (Ok c, set_contacts (contacts w ++ [c]) w).

(** meeting_asset: CHECK (kind IN ('image', 'file')). *)
Definition add_meeting_asset (a : MeetingAsset.t) : M MeetingAsset.t :=
  fun w =>
    if negb (str_eqb (MeetingAsset.kind a) (u "image")
             || str_eqb (MeetingAsset.kind a) (u "file"))
       || pk_taken MeetingAsset.id (MeetingAsset.id a) (meeting_assets w)
    then (Raise DatabaseError, w)
    else (Ok a, set_meeting_assets (meeting_assets w ++ [a]) w).

(** meeting_summary: [version] is an INTEGER. *)
Definition add_meeting_summary (s : MeetingSummary.t) : M MeetingSummary.t :=
  fun w =>
    if negb (int4_ok (MeetingSummary.version s))
       || pk_taken MeetingSummary.id (MeetingSummary.id s)
            (meeting_summaries w)
    then (Raise DatabaseError, w)
    else (Ok s, set_meeting_summaries (meeting_summaries w ++ [s]) w).

(** email_draft: [version] is an INTEGER. *)
Definition add_email_draft (d : EmailDraft.t) : M EmailDraft.t :=
  fun w =>
    if negb (int4_ok (EmailDraft.version d))
       || pk_taken EmailDraft.id (EmailDraft.id d) (email_drafts w)
    then (Raise DatabaseError, w)
    else (Ok d, set_email_drafts (email_drafts w ++ [d]) w).

(** The relationships a handler or a response walks. *)
Definition Meeting_customer (w : World) (m : Meeting.t) : option Customer.t :=
  first (filter (fun c => str_eqb (Customer.id c) (Meeting.customer_id m))
           (customers w)).

Definition Customer_contacts (w : World) (c : Customer.t) : list Contact.t :=
  filter (fun x => str_eqb (Contact.customer_id x) (Customer.id c))
    (contacts w).

Definition Customer_meetings (w : World) (c : Customer.t) : list Meeting.t :=
  filter (fun m => str_eqb (Meeting.customer_id m) (Customer.id c))
    (meetings w).

Definition Meeting_assets (w : World) (m : Meeting.t) : list MeetingAsset.t :=
  filter (fun a => str_eqb (MeetingAsset.meeting_id a) (Meeting.id m))
    (meeting_assets w).

Definition Meeting_summaries (w : World) (m : Meeting.t)
  : list MeetingSummary.t :=
  filter (fun s => str_eqb (MeetingSummary.meeting_id s) (Meeting.id m))
    (meeting_summaries w).

Definition Meeting_email_drafts (w : World) (m : Meeting.t)
  : list EmailDraft.t :=
  filter (fun d => str_eqb (EmailDraft.meeting_id d) (Meeting.id m))
    (email_drafts w).

(** [db.delete(obj)] removes the rows carrying the primary key of a
    loaded object. *)
Definition delete_by_pk {A} (id : A -> str) (loaded rows : list A) : list A :=
  filter (fun r => negb (pk_taken id (id r) loaded)) rows.

(** Deleting a meeting: cascade="all, delete-orphan" on [assets],
    [summaries] and [email_drafts]. *)
Definition delete_meeting (m : Meeting.t) (w : World) : World :=
  let w1 := set_meeting_assets
              (delete_by_pk MeetingAsset.id (Meeting_assets w m)
                 (meeting_assets w)) w in
  let w2 := set_meeting_summaries
              (delete_by_pk MeetingSummary.id (Meeting_summaries w m)
                 (meeting_summaries w)) w1 in
  let w3 := set_email_drafts
              (delete_by_pk EmailDraft.id (Meeting_email_drafts w m)
                 (email_drafts w)) w2 in
  set_meetings (delete_by_pk Meeting.id [m] (meetings w)) w3.

(** Deleting a customer: cascade="all, delete-orphan" on [contacts] and
    [meetings]. *)
Definition delete_customer_cascade (c : Customer.t) (w : World) : World :=
  let w1 := set_contacts
              (delete_by_pk Contact.id (Customer_contacts w c) (contacts w))
              w in
  let w2 := fold_left (fun acc m => delete_meeting m acc)
              (Customer_meetings w c) w1 in
  set_customers (delete_by_pk Customer.id [c] (customers w)) w2.

(* ================================================================== *)
(** * main.py: the route handlers *)
(* ================================================================== *)

(** What a request brings besides its parameters: the authenticated user
    and the value [uuid.uuid4] returns for the row it creates. *)
Record Context := {
  current_user : AppUser.t;
  uuid4 : str
}.

(** Serialisation of a row into its response model (from_attributes). *)
Definition CustomerResponse_of (c : Customer.t) : CustomerResponse :=
  {| cr_name := Customer.name c;
     cr_logo_url := Customer.logo_url c;
     cr_arr_usd := Customer.arr_usd c;
     cr_notes := Customer.notes c;
     cr_id := Customer.id c;
     cr_last_meeting_date := None;
     cr_contacts_count := Some 0%Z;
     cr_meetings_count := Some 0%Z |}.

Definition ContactResponse_of (c : Contact.t) : ContactResponse :=
  {| cnr_name := Contact.name c;
     cnr_role := Contact.role c;
     cnr_phone := Contact.phone c;
     cnr_email := Contact.email c;
     cnr_id := Contact.id c;
     cnr_customer_id := Contact.customer_id c |}.

Definition AssetResponse_of (a : MeetingAsset.t) : AssetResponse :=
  {| ar_id := MeetingAsset.id a;
     ar_kind := MeetingAsset.kind a;
     ar_file_url := MeetingAsset.file_url a;
     ar_file_name := MeetingAsset.file_name a |}.

Definition SummaryResponse_of (s : MeetingSummary.t) : SummaryResponse :=
  {| sr_id := MeetingSummary.id s;
     sr_version := MeetingSummary.version s;
     sr_language := MeetingSummary.language s;
     sr_summary_md := MeetingSummary.summary_md s;
     sr_model := MeetingSummary.model s;
     sr_created_by_ai := MeetingSummary.created_by_ai s |}.

Definition EmailDraftResponse_of (d : EmailDraft.t) : EmailDraftResponse :=
  {| er_id := EmailDraft.id d;
     er_version := EmailDraft.version d;
     er_subject := EmailDraft.subject d;
     er_body_html := EmailDraft.body_html d;
     er_to_emails := EmailDraft.to_emails d;
     er_cc_emails := EmailDraft.cc_emails d;
     er_language := EmailDraft.language d;
     er_created_by_ai := EmailDraft.created_by_ai d |}.

(** [Meeting] has no attribute [title_hint] (the column is [_title_hint]),
    so that field of the response keeps its default. *)
Definition MeetingResponse_of (w : World) (m : Meeting.t) : MeetingResponse :=
  {| mr_meeting_date := Meeting.meeting_date m;
     mr_title_hint := None;
     mr_raw_notes := Meeting.raw_notes m;
     mr_id := Meeting.id m;
     mr_customer_id := Meeting.customer_id m;
     mr_title := Meeting.title m;
     mr_assets := map AssetResponse_of (Meeting_assets w m);
     mr_summaries := map SummaryResponse_of (Meeting_summaries w m);
     mr_email_drafts := map EmailDraftResponse_of (Meeting_email_drafts w m) |}.

(** [db.query(Customer).filter(Customer.id == customer_id).first()] *)
Definition query_customer (customer_id : str) : M (option Customer.t) :=
  gets (fun w =>
    first (filter (fun c => str_eqb (Customer.id c) customer_id)
             (customers w))).

(** [db.query(Meeting).filter(Meeting.id == meeting_id).first()] *)
Definition query_meeting (meeting_id : str) : M (option Meeting.t) :=
  gets (fun w =>
    first (filter (fun m => str_eqb (Meeting.id m) meeting_id) (meetings w))).

Definition not_found {A} (detail : string) : M A :=
  raise (HTTPException 404 (u detail)).

(** GET /customers *)
Definition get_customers (search : option str) (limit offset : Z)
  : M (list CustomerResponse) :=
  all <- gets customers ;;
  query <-
    (if opt_truthy search then
       match ilike (u "%" ++ format_opt search ++ u "%") with
       | Some matches => ret (filter (fun c => matches (Customer.name c)) all)
       | None => raise DatabaseError
       end
     else ret all) ;;
  if ((limit <? 0) || (offset <? 0))%Z then raise DatabaseError
  else
    let customers :=
      firstn (Z.to_nat limit) (skipn (Z.to_nat offset) query) in
    ret (map CustomerResponse_of customers).

(** The defaults of [limit] and [offset]. *)
Definition default_limit : Z := 50.
Definition default_offset : Z := 0.

(** POST /customers *)
Definition create_customer (ctx : Context) (customer : CustomerCreate)
  : M CustomerResponse :=
  let db_customer :=
    {| Customer.id := uuid4 ctx;
       Customer.name := cc_name customer;
       Customer.logo_url := cc_logo_url customer;
       Customer.arr_usd := cc_arr_usd customer;
       Customer.notes := cc_notes customer;
       Customer.created_by := Some (AppUser.id (current_user ctx)) |} in
  db_customer <- add_customer db_customer ;;
  ret (CustomerResponse_of db_customer).

(** GET /customers/{customer_id} *)
Definition get_customer (customer_id : str) : M CustomerResponse :=
  customer <- query_customer customer_id ;;
  match customer with
  | None => not_found "Customer not found"
  | Some customer => ret (CustomerResponse_of customer)
  end.

(** One entry of [customer_update.dict(exclude_unset=True)]. *)
Inductive CustomerItem :=
| Item_name (v : option str)
| Item_logo_url (v : option str)
| Item_arr_usd (v : option Decimal)
| Item_notes (v : option str).

Definition item {A} (mk : A -> CustomerItem) (f : Field A)
  : list CustomerItem :=
  match f with Unset => [] | Given v => [mk v] end.

Definition dict_exclude_unset (x : CustomerUpdate) : list CustomerItem :=
  item Item_name (cu_name x) ++ item Item_logo_url (cu_logo_url x)
    ++ item Item_arr_usd (cu_arr_usd x) ++ item Item_notes (cu_notes x).

(** [setattr(customer, field, value)] together with the rule of the
    column that the UPDATE then applies: [name] is NOT NULL, [arr_usd] is
    NUMERIC(14,2).  [None] stands for a rejected statement. *)
Definition setattr (customer : Customer.t) (it : CustomerItem)
  : option Customer.t :=
  match it with
  | Item_name None => None
  | Item_name (Some v) =>
      Some {| Customer.id := Customer.id customer;
              Customer.name := v;
              Customer.logo_url := Customer.logo_url customer;
              Customer.arr_usd := Customer.arr_usd customer;
              Customer.notes := Customer.notes customer;
              Customer.created_by := Customer.created_by customer |}
  | Item_logo_url v =>
      Some {| Customer.id := Customer.id customer;
              Customer.name := Customer.name customer;
              Customer.logo_url := v;
              Customer.arr_usd := Customer.arr_usd customer;
              Customer.notes := Customer.notes customer;
              Customer.created_by := Customer.created_by customer |}
  | Item_arr_usd None =>
      Some {| Customer.id := Customer.id customer;
              Customer.name := Customer.name customer;
              Customer.logo_url := Customer.logo_url customer;
              Customer.arr_usd := None;
              Customer.notes := Customer.notes customer;
              Customer.created_by := Customer.created_by customer |}
  | Item_arr_usd (Some d) =>
      match numeric_14_2 d with
      | None => None
      | Some stored =>
          Some {| Customer.id := Customer.id customer;
                  Customer.name := Customer.name customer;
                  Customer.logo_url := Customer.logo_url customer;
                  Customer.arr_usd := Some stored;
                  Customer.notes := Customer.notes customer;
                  Customer.created_by := Customer.created_by customer |}
      end
  | Item_notes v =>
      Some {| Customer.id := Customer.id customer;
              Customer.name := Customer.name customer;
              Customer.logo_url := Customer.logo_url customer;
              Customer.arr_usd := Customer.arr_usd customer;
              Customer.notes := v;
              Customer.created_by := Customer.created_by customer |}
  end.

(** The [for field, value in ...: setattr(...)] loop. *)
Fixpoint setattr_all (customer : Customer.t) (items : list CustomerItem)
  : option Customer.t :=
  match items with
  | [] => Some customer
  | it :: rest =>
      match setattr customer it with
      | Some customer' => setattr_all customer' rest
      | None => None
      end
  end.

(** The UPDATE of the row with the primary key of [customer]. *)
Definition replace_customer (customer : Customer.t) (rows : list Customer.t)
  : list Customer.t :=
  map (fun r =>
         if str_eqb (Customer.id r) (Customer.id customer) then customer
         else r) rows.

(** PUT /customers/{customer_id} *)
Definition update_customer (customer_id : str) (customer_update : CustomerUpdate)
  : M CustomerResponse :=
  customer <- query_customer customer_id ;;
  match customer with
  | None => not_found "Customer not found"
  | Some customer =>
      match setattr_all customer (dict_exclude_unset customer_update) with
      | None => raise DatabaseError
      | Some customer =>
          modify (fun w =>
            set_customers (replace_customer customer (customers w)) w) ;;;
          ret (CustomerResponse_of customer)
      end
  end.

(** DELETE /customers/{customer_id} *)
Definition delete_customer (customer_id : str) : M str :=
  customer <- query_customer customer_id ;;
  match customer with
  | None => not_found "Customer not found"
  | Some customer =>
      modify (delete_customer_cascade customer) ;;;
      ret (u "Customer deleted successfully")
  end.

(** POST /customers/{customer_id}/contacts *)
Definition create_contact (ctx : Context) (customer_id : str)
  (contact : ContactCreate) : M ContactResponse :=
  (* Verify customer exists *)
  customer <- query_customer customer_id ;;
  match customer with
  | None => not_found "Customer not found"
  | Some _ =>
      let db_contact :=
        {| Contact.id := uuid4 ctx;
           Contact.customer_id := customer_id;
           Contact.name := cn_name contact;
           Contact.role := cn_role contact;
           Contact.phone := cn_phone contact;
           Contact.email := cn_email contact |} in
      db_contact <- add_contact db_contact ;;
      ret (ContactResponse_of db_contact)
  end.

(** GET /customers/{customer_id}/meetings *)
Definition get_customer_meetings (customer_id : str)
  : M (list MeetingResponse) :=
  w <- gets (fun w => w) ;;
  let meetings :=
    order_by_desc (fun m => date_ordinal (Meeting.meeting_date m))
      (filter (fun m => str_eqb (Meeting.customer_id m) customer_id)
         (meetings w)) in
  ret (map (MeetingResponse_of w) meetings).


(** GET /meetings/{meeting_id} *)
Definition get_meeting (meeting_id : str) : M MeetingResponse :=
  meeting <- query_meeting meeting_id ;;
  match meeting with
  | None => not_found "Meeting not found"
  | Some meeting => w <- gets (fun w => w) ;; ret (MeetingResponse_of w meeting)
  end.

(** [os.makedirs] and the write of the opened file; [disk_ok] is the
    answer of the operating system.  A later write to the same path
    replaces the earlier content. *)
Definition save_file (disk_ok : bool) (file_path : str) (content : list N)
  : M unit :=
  if disk_ok
  then modify (fun w =>
         set_files
           ((file_path, content)
              :: filter (fun f => negb (str_eqb (fst f) file_path)) (files w))
           w)
  else raise OSError.

Record UploadResult := {
  ur_message : str;
  ur_asset_id : str
}.

(** POST /meetings/{meeting_id}/assets *)
Definition upload_meeting_asset (ctx : Context) (disk_ok : bool)
  (meeting_id : str) (file : UploadFile) : M UploadResult :=
  (* Verify meeting exists *)
  meeting <- query_meeting meeting_id ;;
  match meeting with
  | None => not_found "Meeting not found"
  | Some _ =>
      (* Save file to storage *)
      let file_path :=
        u "data/assets/" ++ meeting_id ++ u "/" ++ format_opt (filename file) in
      save_file disk_ok file_path (body file) ;;;
      (* Create asset record *)
      match content_type file with
      | None => raise AttributeError
      | Some content_type =>
          let asset :=
            {| MeetingAsset.id := uuid4 ctx;
               MeetingAsset.meeting_id := meeting_id;
               MeetingAsset.kind :=
                 if startswith content_type (u "image/")
                 then u "image" else u "file";
               MeetingAsset.file_url := file_path;
               MeetingAsset.file_name := filename file |} in
          asset <- add_meeting_asset asset ;;
          ret {| ur_message := u "Asset uploaded successfully";
                 ur_asset_id := MeetingAsset.id asset |}
      end
  end.

Record SummarizeResult := {
  sz_summary_id : str;
  sz_version : Z;
  sz_language : str
}.

(** POST /meetings/{meeting_id}/ai/summarize *)
Definition create_ai_summary (ctx : Context) (meeting_id : str)
  (language : str) : M SummarizeResult :=
  meeting <- query_meeting meeting_id ;;
  match meeting with
  | None => not_found "Meeting not found"
  | Some meeting =>
      (* Get next version number *)
      latest_summary <- gets (fun w =>
        first (order_by_desc MeetingSummary.version
                 (filter (fun s =>
                            str_eqb (MeetingSummary.meeting_id s) meeting_id)
                    (meeting_summaries w)))) ;;
      let next_version :=
        match latest_summary with
        | Some latest => (MeetingSummary.version latest + 1)%Z
        | None => 1%Z
        end in
      (* Generate AI summary *)
      let summary_text := generate_meeting_summary meeting language in
      let summary :=
        {| MeetingSummary.id := uuid4 ctx;
           MeetingSummary.meeting_id := meeting_id;
           MeetingSummary.version := next_version;
           MeetingSummary.language := language;
           MeetingSummary.summary_md := summary_text;
           MeetingSummary.model := u "gpt-4";
           MeetingSummary.prompt_template_version := Some (u "v1.0");
           MeetingSummary.created_by_ai := true |} in
      summary <- add_meeting_summary summary ;;
      ret {| sz_summary_id := MeetingSummary.id summary;
             sz_version := MeetingSummary.version summary;
             sz_language := MeetingSummary.language summary |}
  end.

Record DraftResult := {
  dr_email_draft_id : str;
  dr_version : Z;
  dr_subject : str
}.

(** POST /meetings/{meeting_id}/ai/draft-email *)
Definition create_email_draft (ctx : Context) (meeting_id : str)
  (language : str) : M DraftResult :=
  meeting <- query_meeting meeting_id ;;
  match meeting with
  | None => not_found "Meeting not found"
  | Some meeting =>
      (* Get next version number *)
      latest_draft <- gets (fun w =>
        first (order_by_desc EmailDraft.version
                 (filter (fun d => str_eqb (EmailDraft.meeting_id d) meeting_id)
                    (email_drafts w)))) ;;
      let next_version :=
        match latest_draft with
        | Some latest => (EmailDraft.version latest + 1)%Z
        | None => 1%Z
        end in
      (* Generate email draft *)
      customer <- gets (fun w => Meeting_customer w meeting) ;;
      let email_content := generate_email_draft customer meeting language in
      (* Get customer contacts for TO/CC *)
      contacts <- gets (fun w =>
        filter (fun c =>
                  str_eqb (Contact.customer_id c) (Meeting.customer_id meeting)
                  && is_some (Contact.email c))
          (contacts w)) ;;
      let to_emails := map Contact.email (slice_to 2 contacts) in
      let cc_emails := map Contact.email (slice_from 2 contacts) in
      let draft :=
        {| EmailDraft.id := uuid4 ctx;
           EmailDraft.meeting_id := meeting_id;
           EmailDraft.version := next_version;
           EmailDraft.subject := fst email_content;
           EmailDraft.body_html := snd email_content;
           EmailDraft.to_emails := to_emails;
           EmailDraft.cc_emails := cc_emails;
           EmailDraft.language := language;
           EmailDraft.created_by_ai := true |} in
      draft <- add_email_draft draft ;;
      ret {| dr_email_draft_id := EmailDraft.id draft;
             dr_version := EmailDraft.version draft;
             dr_subject := EmailDraft.subject draft |}
  end.

(* ================================================================== *)
(** * Notions used in the statements, and sample data *)
(* ================================================================== *)

(** A non-empty string that [rstrip] keeps whole. *)
Definition solid_end (s : str) : Prop := rstrip s = s /\ s <> [].

Definition jan_15_2024 : date := {| year := 2024; month := 1; day := 15 |}.

(** The second half of a title in the words of the specification: the
    stripped hint, or the default when nothing is left of the hint. *)
Definition hint_or_default (hint : option str) : str :=
  match hint with
  | Some h => match strip h with [] => u "Meeting" | s => s end
  | None => u "Meeting"
  end.

Definition kickoff_meeting : Meeting.t :=
  {| Meeting.id := u "m-1";
     Meeting.customer_id := u "c-1";
     Meeting.meeting_date := jan_15_2024;
     Meeting._title_hint := Some (u "Kickoff");
     Meeting.raw_notes := None;
     Meeting.created_by := None |}.

Definition head_is_greatest {A} (key : A -> Z) (l : list A) : Prop :=
  match l with
  | [] => True
  | x :: l' => forall y, In y l' -> (key y <= key x)%Z
  end.

(** The version a new summary or draft receives, as both handlers compute
    it from the rows of the meeting. *)
Definition next_version {A} (version : A -> Z) (rows : list A) : Z :=
  match first (order_by_desc version rows) with
  | Some latest => (version latest + 1)%Z
  | None => 1%Z
  end.

(** The stored summaries of a meeting. *)
Definition summaries_of (w : World) (meeting_id : str)
  : list MeetingSummary.t :=
  filter (fun s => str_eqb (MeetingSummary.meeting_id s) meeting_id)
    (meeting_summaries w).

(** The row that [create_ai_summary] builds. *)
Definition summary_row (ctx : Context) (meeting_id language : str)
  (meeting : Meeting.t) (version : Z) : MeetingSummary.t :=
  {| MeetingSummary.id := uuid4 ctx;
     MeetingSummary.meeting_id := meeting_id;
     MeetingSummary.version := version;
     MeetingSummary.language := language;
     MeetingSummary.summary_md := generate_meeting_summary meeting language;
     MeetingSummary.model := u "gpt-4";
     MeetingSummary.prompt_template_version := Some (u "v1.0");
     MeetingSummary.created_by_ai := true |}.

(** A small stored state used to run the handlers: one customer with four
    contacts and one meeting. *)
Definition alice : AppUser.t :=
  {| AppUser.id := u "u-1"; AppUser.email := u "alice@example.com";
     AppUser.display_name := Some (u "Alice");
     AppUser.password_hash := u "x"; AppUser.locale := u "en";
     AppUser.timezone := u "Asia/Jerusalem"; AppUser.role := u "user" |}.

Definition request (new_id : string) : Context :=
  {| current_user := alice; uuid4 := u new_id |}.

Definition acme : Customer.t :=
  {| Customer.id := u "c-1"; Customer.name := u "Acme Corp";
     Customer.logo_url := Some (u "https://acme.example/logo.png");
     Customer.arr_usd := Some {| coefficient := 1250000; places := 2 |};
     Customer.notes := Some (u "Key account");
     Customer.created_by := Some (u "u-1") |}.

Definition contact_of (id name email : string) : Contact.t :=
  {| Contact.id := u id; Contact.customer_id := u "c-1";
     Contact.name := u name; Contact.role := None; Contact.phone := None;
     Contact.email := Some (u email) |}.

Definition demo_world : World :=
  {| customers := [acme];
     contacts := [contact_of "k-1" "Ann" "ann@acme.example";
                  contact_of "k-2" "Bob" "bob@acme.example";
                  contact_of "k-3" "Cy" "cy@acme.example";
                  contact_of "k-4" "Di" "di@acme.example"];
     meetings := [kickoff_meeting];
     meeting_assets := []; meeting_summaries := []; email_drafts := [];
     files := [] |}.

(** The stored drafts of a meeting. *)
Definition drafts_of (w : World) (meeting_id : str) : list EmailDraft.t :=
  filter (fun d => str_eqb (EmailDraft.meeting_id d) meeting_id)
    (email_drafts w).

(** The addresses of the contacts of a customer that have one, in stored
    order. *)
Definition customer_emails (w : World) (customer_id : str) : list str :=
  flat_map
    (fun c =>
       if str_eqb (Contact.customer_id c) customer_id
       then match Contact.email c with Some e => [e] | None => [] end
       else [])
    (contacts w).

Definition png_upload : UploadFile :=
  {| filename := Some (u "board.png");
     content_type := Some (u "image/png");
     body := [137; 80; 78; 71]%N |}.

Definition pdf_upload : UploadFile :=
  {| filename := Some (u "minutes.pdf");
     content_type := Some (u "application/pdf");
     body := [37; 80; 68; 70]%N |}.

(** No row is added: every table of [w'] is part of the table of [w]. *)
Record removes_only (w w' : World) : Prop := {
  ro_customers : forall x, In x (customers w') -> In x (customers w);
  ro_contacts : forall x, In x (contacts w') -> In x (contacts w);
  ro_meetings : forall x, In x (meetings w') -> In x (meetings w);
  ro_assets : forall x, In x (meeting_assets w') -> In x (meeting_assets w);
  ro_summaries :
    forall x, In x (meeting_summaries w') -> In x (meeting_summaries w);
  ro_drafts : forall x, In x (email_drafts w') -> In x (email_drafts w)
}.

(** Nothing is left of a meeting: neither its row nor a row that refers to
    it. *)
Record meeting_gone (meeting_id : str) (w : World) : Prop := {
  mg_meeting : forall m, In m (meetings w) -> Meeting.id m <> meeting_id;
  mg_assets :
    forall a, In a (meeting_assets w) ->
              MeetingAsset.meeting_id a <> meeting_id;
  mg_summaries :
    forall s, In s (meeting_summaries w) ->
              MeetingSummary.meeting_id s <> meeting_id;
  mg_drafts :
    forall d, In d (email_drafts w) -> EmailDraft.meeting_id d <> meeting_id
}.

(** A second customer with a contact and a meeting, and a state that holds
    both customers with assets, summaries and drafts. *)
Definition globex : Customer.t :=
  {| Customer.id := u "c-2"; Customer.name := u "Globex";
     Customer.logo_url := None;
     Customer.arr_usd := Some {| coefficient := 0; places := 2 |};
     Customer.notes := None; Customer.created_by := Some (u "u-1") |}.

Definition globex_contact : Contact.t :=
  {| Contact.id := u "k-9"; Contact.customer_id := u "c-2";
     Contact.name := u "Eve"; Contact.role := None; Contact.phone := None;
     Contact.email := Some (u "eve@globex.example") |}.

Definition globex_meeting : Meeting.t :=
  {| Meeting.id := u "m-2"; Meeting.customer_id := u "c-2";
     Meeting.meeting_date := jan_15_2024; Meeting._title_hint := None;
     Meeting.raw_notes := Some (u "Renewal"); Meeting.created_by := None |}.

Definition asset_of (id meeting_id : string) : MeetingAsset.t :=
  {| MeetingAsset.id := u id; MeetingAsset.meeting_id := u meeting_id;
     MeetingAsset.kind := u "file";
     MeetingAsset.file_url := u "data/assets/" ++ u meeting_id ++ u "/a.txt";
     MeetingAsset.file_name := Some (u "a.txt") |}.

Definition draft_of (id meeting_id : string) : EmailDraft.t :=
  {| EmailDraft.id := u id; EmailDraft.meeting_id := u meeting_id;
     EmailDraft.version := 1; EmailDraft.subject := u "s";
     EmailDraft.body_html := u "b"; EmailDraft.to_emails := [];
     EmailDraft.cc_emails := []; EmailDraft.language := u "en";
     EmailDraft.created_by_ai := true |}.

Definition two_customers : World :=
  {| customers := [acme; globex];
     contacts := contacts demo_world ++ [globex_contact];
     meetings := [kickoff_meeting; globex_meeting];
     meeting_assets := [asset_of "a-1" "m-1"; asset_of "a-2" "m-2"];
     meeting_summaries :=
       [summary_row (request "s-1") (u "m-1") (u "en") kickoff_meeting 1;
        summary_row (request "s-2") (u "m-2") (u "he") globex_meeting 1;
        summary_row (request "s-3") (u "m-1") (u "en") kickoff_meeting 2];
     email_drafts := [draft_of "d-1" "m-1"; draft_of "d-2" "m-2"];
     files := [] |}.















(* ================================================================== *)
(** * Further notions: the remaining handlers and state invariants *)
(* ================================================================== *)

Record UserResponse := {
  usr_id : str;
  usr_email : str;
  usr_display_name : option str;
  usr_locale : str;
  usr_timezone : str;
  usr_role : str
}.

(** POST /auth/logout *)
Definition logout : M str := ret (u "Logged out successfully").

(** GET /auth/me *)
Definition get_current_user_info (ctx : Context) : M UserResponse :=
  let current_user := current_user ctx in
  ret {| usr_id := AppUser.id current_user;
         usr_email := AppUser.email current_user;
         usr_display_name := AppUser.display_name current_user;
         usr_locale := AppUser.locale current_user;
         usr_timezone := AppUser.timezone current_user;
         usr_role := AppUser.role current_user |}.

(** The row that [create_contact] builds. *)
Definition contact_row (ctx : Context) (customer_id : str)
  (contact : ContactCreate) : Contact.t :=
  {| Contact.id := uuid4 ctx;
     Contact.customer_id := customer_id;
     Contact.name := cn_name contact;
     Contact.role := cn_role contact;
     Contact.phone := cn_phone contact;
     Contact.email := cn_email contact |}.


(** A contact to create. *)
Definition zed : ContactCreate :=
  {| cn_name := u "Zed"; cn_role := None; cn_phone := None;
     cn_email := Some (u "zed@acme.example") |}.



Definition meeting_on (id : string) (y m d : N) : Meeting.t :=
  {| Meeting.id := u id; Meeting.customer_id := u "c-1";
     Meeting.meeting_date := {| year := y; month := m; day := d |};
     Meeting._title_hint := None; Meeting.raw_notes := None;
     Meeting.created_by := None |}.

(** A customer with four meetings, stored out of date order. *)
Definition four_meetings : World :=
  set_meetings [meeting_on "m-a" 2024 1 15; meeting_on "m-b" 2024 3 2;
                meeting_on "m-c" 2023 12 31; meeting_on "m-d" 2024 3 1;
                globex_meeting]
    demo_world.

(** The row that [create_email_draft] builds. *)
Definition draft_row (ctx : Context) (meeting_id language : str)
  (w : World) (meeting : Meeting.t) (version : Z) : EmailDraft.t :=
  let email_content :=
    generate_email_draft (Meeting_customer w meeting) meeting language in
  let addressed :=
    filter (fun c =>
              str_eqb (Contact.customer_id c) (Meeting.customer_id meeting)
              && is_some (Contact.email c))
      (contacts w) in
  {| EmailDraft.id := uuid4 ctx;
     EmailDraft.meeting_id := meeting_id;
     EmailDraft.version := version;
     EmailDraft.subject := fst email_content;
     EmailDraft.body_html := snd email_content;
     EmailDraft.to_emails := map Contact.email (firstn 2 addressed);
     EmailDraft.cc_emails := map Contact.email (skipn 2 addressed);
     EmailDraft.language := language;
     EmailDraft.created_by_ai := true |}.

(** No two summaries of one meeting carry the same version, and likewise
    for drafts. *)
Definition versions_distinct (w : World) : Prop :=
  forall meeting_id,
    NoDup (map MeetingSummary.version (summaries_of w meeting_id))
    /\ NoDup (map EmailDraft.version (drafts_of w meeting_id)).

(** The sample state after two summaries and one draft of its meeting. *)
Definition summarized_world : World :=
  set_email_drafts [draft_of "d-1" "m-1"]
    (set_meeting_summaries
       [summary_row (request "s-1") (u "m-1") (u "en") kickoff_meeting 1;
        summary_row (request "s-2") (u "m-1") (u "he") kickoff_meeting 2]
       demo_world).

(** The path [upload_meeting_asset] writes to, and the row it builds. *)
Definition stored_path (meeting_id : str) (file : UploadFile) : str :=
  u "data/assets/" ++ meeting_id ++ u "/" ++ format_opt (filename file).

Definition asset_row (ctx : Context) (meeting_id : str) (file : UploadFile)
  (content_type_ : str) : MeetingAsset.t :=
  {| MeetingAsset.id := uuid4 ctx;
     MeetingAsset.meeting_id := meeting_id;
     MeetingAsset.kind :=
       if startswith content_type_ (u "image/") then u "image" else u "file";
     MeetingAsset.file_url := stored_path meeting_id file;
     MeetingAsset.file_name := filename file |}.

(** The asset directory after a write. *)
Definition written (file_path : str) (content : list N) (w : World) : World :=
  set_files
    ((file_path, content)
       :: filter (fun f => negb (str_eqb (fst f) file_path)) (files w)) w.

(** What is stored under a path. *)
Definition stored_at (w : World) (file_path : str) : list (list N) :=
  map snd (filter (fun f => str_eqb (fst f) file_path) (files w)).

(** A part without content type, and a second version of the PNG upload. *)
Definition untyped_upload : UploadFile :=
  {| filename := Some (u "notes.txt"); content_type := None;
     body := [104; 105]%N |}.






(** Primary keys are unique in every table. *)
Record unique_ids (w : World) : Prop := {
  ui_customers : NoDup (map Customer.id (customers w));
  ui_contacts : NoDup (map Contact.id (contacts w));
  ui_meetings : NoDup (map Meeting.id (meetings w));
  ui_assets : NoDup (map MeetingAsset.id (meeting_assets w));
  ui_summaries : NoDup (map MeetingSummary.id (meeting_summaries w));
  ui_drafts : NoDup (map EmailDraft.id (email_drafts w))
}.

(** A meeting of the customer [customer_id] has the identifier
    [meeting_id]. *)
Definition meeting_of_customer (w : World) (customer_id meeting_id : str)
  : Prop :=
  exists m, In m (meetings w) /\ Meeting.customer_id m = customer_id
            /\ Meeting.id m = meeting_id.





(** [x] occurs in [s] as a run of consecutive characters. *)
Definition occurs_in (x s : str) : Prop := exists pre post, s = pre ++ x ++ post.

(** The texts that stand for missing notes, by language. *)
Definition summary_placeholder (language : str) : str :=
  if str_eqb language (u "he") then u "אין הערות זמינות"
  else u "No notes available".


(** A meeting with another title hint. *)
Definition with_hint (m : Meeting.t) (hint : option str) : Meeting.t :=
  {| Meeting.id := Meeting.id m;
     Meeting.customer_id := Meeting.customer_id m;
     Meeting.meeting_date := Meeting.meeting_date m;
     Meeting._title_hint := hint;
     Meeting.raw_notes := Meeting.raw_notes m;
     Meeting.created_by := Meeting.created_by m |}.



(* ================================================================== *)
(** * Facts about strings *)
(* ================================================================== *)

Lemma str_eqb_refl (a : str) : str_eqb a a = true.
Proof.
  induction a as [|x a IH]; simpl; [reflexivity|].
  now rewrite N.eqb_refl, IH.
Qed.

Lemma str_eqb_eq (a b : str) : str_eqb a b = true <-> a = b.
Proof.
  split.
  - revert b; induction a as [|x a IH]; intros [|y b]; simpl; try discriminate.
    + reflexivity.
    + intros H. apply andb_true_iff in H as [Hx Hab].
      apply N.eqb_eq in Hx. now rewrite Hx, (IH b Hab).
  - intros ->. apply str_eqb_refl.
Qed.

Lemma str_eqb_neq (a b : str) : str_eqb a b = false <-> a <> b.
Proof.
  split.
  - intros H E. apply str_eqb_eq in E. congruence.
  - intros H. destruct (str_eqb a b) eqn:E; [|reflexivity].
    apply str_eqb_eq in E. contradiction.
Qed.

Lemma lstrip_blank (s : str) : forallb isspace s = true -> lstrip s = [].
Proof.
  induction s as [|c s IH]; simpl; [reflexivity|].
  intros H. apply andb_true_iff in H as [Hc Hs]. now rewrite Hc, IH.
Qed.

Lemma strip_blank (s : str) : forallb isspace s = true -> strip s = [].
Proof. intros H. unfold strip. now rewrite lstrip_blank. Qed.

Lemma lstrip_app (a r : str) :
  lstrip a = a -> a <> [] -> lstrip (a ++ r) = a ++ r.
Proof.
  destruct a as [|c a]; [congruence|]. simpl. intros H _.
  destruct (isspace c) eqn:Hc; [|reflexivity].
  exfalso. clear r.
  assert (L : forall t, (List.length (lstrip t) <= List.length t)%nat).
  { induction t as [|x t IHt]; simpl; [lia|].
    destruct (isspace x); simpl; lia. }
  specialize (L a). rewrite H in L. simpl in L. lia.
Qed.

Lemma rstrip_app_r (a b : str) :
  rstrip b <> [] -> rstrip (a ++ b) = a ++ rstrip b.
Proof.
  intros Hb. induction a as [|x a IH]; simpl; [reflexivity|].
  rewrite IH. destruct (a ++ rstrip b) eqn:E; [|reflexivity].
  apply app_eq_nil in E as [_ E]. contradiction.
Qed.

Lemma rstrip_app_blank (a w : str) :
  forallb isspace w = true -> rstrip (a ++ w) = rstrip a.
Proof.
  intros Hw.
  assert (W : rstrip w = []).
  { induction w as [|c w IH]; simpl; [reflexivity|].
    simpl in Hw. apply andb_true_iff in Hw as [Hc Hw].
    now rewrite (IH Hw), Hc. }
  induction a as [|x a IH]; simpl; [exact W|]. now rewrite IH.
Qed.

(** Text put in front of such a string leaves it so. *)
Lemma solid_end_app (a b : str) : solid_end b -> solid_end (a ++ b).
Proof.
  intros [Hb Hn]. split.
  - rewrite rstrip_app_r; rewrite Hb; [reflexivity | exact Hn].
  - intros E. apply app_eq_nil in E as [_ E]. contradiction.
Qed.

(** Stripping a text that sits between two line breaks. *)
Lemma strip_between_newlines (a r : str) :
  lstrip a = a -> a <> [] -> solid_end (a ++ r) ->
  strip (nl ++ (a ++ r) ++ nl) = a ++ r.
Proof.
  intros Ha Hn [Hr _]. unfold strip.
  change (lstrip (nl ++ (a ++ r) ++ nl)) with (lstrip ((a ++ r) ++ nl)).
  rewrite <- app_assoc, (lstrip_app _ Ha Hn), app_assoc.
  rewrite rstrip_app_blank by reflexivity. exact Hr.
Qed.

Ltac solid_end_tac :=
  repeat (apply solid_end_app);
  split; [vm_compute; reflexivity | vm_compute; discriminate].

Lemma summary_he_text (meeting : Meeting.t) :
  generate_meeting_summary meeting (u "he") = summary_text_he meeting.
Proof.
  unfold generate_meeting_summary.
  change (str_eqb (u "he") (u "he")) with true. cbv iota.
  unfold summary_text_he. apply strip_between_newlines.
  - vm_compute; reflexivity.
  - vm_compute; discriminate.
  - solid_end_tac.
Qed.

Lemma summary_en_text (meeting : Meeting.t) (language : str) :
  language <> u "he" ->
  generate_meeting_summary meeting language = summary_text_en meeting.
Proof.
  intros H. apply str_eqb_neq in H.
  unfold generate_meeting_summary. rewrite H.
  unfold summary_text_en. apply strip_between_newlines.
  - vm_compute; reflexivity.
  - vm_compute; discriminate.
  - solid_end_tac.
Qed.

Lemma email_he_text (customer : option Customer.t) (meeting : Meeting.t) :
  snd (generate_email_draft customer meeting (u "he"))
  = email_text_he meeting
      (match customer with Some c => Customer.name c | None => u "Customer" end)
      (strftime_Ymd (Meeting.meeting_date meeting)).
Proof.
  unfold generate_email_draft.
  change (str_eqb (u "he") (u "he")) with true. cbv iota. cbn [snd].
  unfold email_text_he. apply strip_between_newlines.
  - vm_compute; reflexivity.
  - vm_compute; discriminate.
  - solid_end_tac.
Qed.


(* ================================================================== *)
(** * Meeting titles *)
(* ================================================================== *)

Lemma title_format (m : Meeting.t) :
  Meeting.title m
  = strftime_Ymd (Meeting.meeting_date m) ++ u " – "
      ++ hint_or_default (Meeting._title_hint m).
Proof.
  unfold Meeting.title, hint_or_default.
  destruct (Meeting._title_hint m) as [h|]; [|reflexivity].
  destruct h as [|c h]; [reflexivity|].
  change (truthy (c :: h)) with true. cbv beta iota delta [andb].
  destruct (strip (c :: h)); reflexivity.
Qed.



(** Titles on a few hints, evaluated. *)
Example title_blank_hint :
  Meeting.title
    {| Meeting.id := u "m-1"; Meeting.customer_id := u "c-1";
       Meeting.meeting_date := jan_15_2024;
       Meeting._title_hint := Some (u "   ");
       Meeting.raw_notes := None; Meeting.created_by := None |}
  = u "2024-01-15 – Meeting".
Proof. reflexivity. Qed.

Example title_padded_hint :
  Meeting.title
    {| Meeting.id := u "m-1"; Meeting.customer_id := u "c-1";
       Meeting.meeting_date := jan_15_2024;
       Meeting._title_hint := Some (u "  Quarterly review ");
       Meeting.raw_notes := None; Meeting.created_by := None |}
  = u "2024-01-15 – Quarterly review".
Proof. reflexivity. Qed.

(* ================================================================== *)
(** * The language of generated content *)
(* ================================================================== *)

Lemma suffix_app (a b z : str) :
  (exists l, b = l ++ z) -> exists l, a ++ b = l ++ z.
Proof. intros [l ->]. exists (a ++ l). apply app_assoc. Qed.

(** C4.  With language "he" the summary is the Hebrew text (it opens with
    the Hebrew heading) and the email body is wrapped in a right-to-left
    block; the Hebrew summary differs from the English one; every language
    other than "he" yields the summary and the email of language "en". *)
Theorem language_selects_template (meeting : Meeting.t)
  (customer : option Customer.t) :
  generate_meeting_summary meeting (u "he") = summary_text_he meeting
  /\ (exists rest,
        generate_meeting_summary meeting (u "he")
        = u "# סיכום פגישה - " ++ rest)
  /\ (exists inner,
        snd (generate_email_draft customer meeting (u "he"))
        = u "<div dir=" ++ dquote ++ u "rtl" ++ dquote ++ u ">"
            ++ inner ++ u "</div>")
  /\ generate_meeting_summary meeting (u "he")
     <> generate_meeting_summary meeting (u "en")
  /\ (forall language, language <> u "he" ->
      generate_meeting_summary meeting language
      = generate_meeting_summary meeting (u "en")
      /\ generate_email_draft customer meeting language
         = generate_email_draft customer meeting (u "en")).
Proof.
  assert (En : u "en" <> u "he") by (vm_compute; discriminate).
  split; [apply summary_he_text|].
  split; [rewrite summary_he_text; unfold summary_text_he; eauto|].
  split.
  { rewrite email_he_text. unfold email_text_he.
    match goal with
    | |- exists inner, _ ++ _ ++ _ ++ _ ++ _ ++ ?r = _ =>
        assert (S : exists l, r = l ++ u "</div>")
    end.
    { repeat match goal with
             | |- exists l, _ ++ _ = l ++ _ => apply suffix_app
             end.
      exists []. reflexivity. }
    destruct S as [l Hl]. exists l. rewrite Hl. reflexivity. }
  split.
  { rewrite summary_he_text, (summary_en_text meeting En).
    unfold summary_text_he, summary_text_en. intros H.
    assert (Eh : u "# סיכום פגישה - "
                 = (35 :: 32 :: 1505 :: u "יכום פגישה - ")%N)
      by (vm_compute; reflexivity).
    assert (Ee : u "# Meeting Summary - "
                 = (35 :: 32 :: 77 :: u "eeting Summary - ")%N)
      by (vm_compute; reflexivity).
    rewrite Eh, Ee in H. simpl app in H.
    injection H as H. discriminate H. }
  intros language Hl. apply str_eqb_neq in Hl. apply str_eqb_neq in En.
  unfold generate_meeting_summary, generate_email_draft.
  rewrite Hl, En. split; reflexivity.
Qed.

Lemma language_selects_template_witness :
  u "fr" <> u "he"
  /\ generate_meeting_summary kickoff_meeting (u "fr")
     = generate_meeting_summary kickoff_meeting (u "en").
Proof.
  assert (H : u "fr" <> u "he") by (vm_compute; discriminate).
  split; [exact H|].
  destruct (language_selects_template kickoff_meeting None)
    as (_ & _ & _ & _ & F).
  exact (proj1 (F (u "fr") H)).
Defined.

(* ================================================================== *)
(** * Facts about queries and primary keys *)
(* ================================================================== *)

Lemma first_filter_some {A} (p : A -> bool) (l : list A) (x : A) :
  first (filter p l) = Some x -> In x l /\ p x = true.
Proof.
  unfold first. intros H.
  assert (I : In x (filter p l)).
  { destruct (filter p l); simpl in H; [discriminate|].
    injection H as ->. now left. }
  apply filter_In in I. exact I.
Qed.


Lemma pk_taken_false {A} (id : A -> str) (x : str) (rows : list A) :
  pk_taken id x rows = false <-> forall r, In r rows -> id r <> x.
Proof.
  unfold pk_taken. split.
  - intros H r Hr E.
    assert (T : existsb (fun r => str_eqb (id r) x) rows = true).
    { apply existsb_exists. exists r. split; [exact Hr|].
      now apply str_eqb_eq. }
    congruence.
  - intros H. destruct (existsb _ rows) eqn:E; [|reflexivity].
    apply existsb_exists in E as (r & Hr & Er).
    apply str_eqb_eq in Er. now destruct (H r Hr).
Qed.

Lemma filter_none {A} (p : A -> bool) (l : list A) :
  (forall x, In x l -> p x = false) -> filter p l = [].
Proof.
  intros H. induction l as [|y l IH]; simpl; [reflexivity|].
  rewrite (H y (or_introl eq_refl)). apply IH.
  intros x Hx. apply H. now right.
Qed.


(** The head of a descending sort carries a greatest key. *)
Lemma insert_desc_In {A} (key : A -> Z) (x y : A) (l : list A) :
  In y (insert_desc key x l) <-> y = x \/ In y l.
Proof.
  induction l as [|z l IH]; simpl.
  - intuition congruence.
  - destruct (key x <=? key z)%Z; simpl; rewrite ?IH; intuition congruence.
Qed.

Lemma order_by_desc_In {A} (key : A -> Z) (y : A) (l : list A) :
  In y (order_by_desc key l) <-> In y l.
Proof.
  induction l as [|x l IH]; simpl; [tauto|].
  rewrite insert_desc_In, IH. intuition congruence.
Qed.

Lemma insert_desc_greatest {A} (key : A -> Z) (x : A) (l : list A) :
  head_is_greatest key l -> head_is_greatest key (insert_desc key x l).
Proof.
  destruct l as [|z l]; simpl; [tauto|].
  intros H. destruct (key x <=? key z)%Z eqn:E; simpl.
  - intros y Hy. apply insert_desc_In in Hy as [->|Hy].
    + now apply Z.leb_le.
    + now apply H.
  - apply Z.leb_gt in E. intros y [->|Hy]; [lia|].
    specialize (H y Hy). lia.
Qed.

Lemma order_by_desc_greatest {A} (key : A -> Z) (l : list A) :
  head_is_greatest key (order_by_desc key l).
Proof.
  induction l as [|x l IH]; simpl; [exact I|].
  now apply insert_desc_greatest.
Qed.

Lemma first_order_by_desc {A} (key : A -> Z) (l : list A) (x : A) :
  first (order_by_desc key l) = Some x ->
  In x l /\ forall y, In y l -> (key y <= key x)%Z.
Proof.
  intros H. pose proof (order_by_desc_greatest key l) as G.
  assert (M : forall y, In y (order_by_desc key l) <-> In y l)
    by (intros y; apply order_by_desc_In).
  destruct (order_by_desc key l) as [|z s]; [discriminate|].
  unfold first in H. simpl in H. injection H as ->. simpl in G. split.
  - apply M. now left.
  - intros y Hy. apply M in Hy as [->|Hy]; [lia|]. now apply G.
Qed.

Lemma first_order_by_desc_none {A} (key : A -> Z) (l : list A) :
  first (order_by_desc key l) = None -> l = [].
Proof.
  intros H. destruct l as [|x l]; [reflexivity|].
  pose proof (proj2 (order_by_desc_In key x (x :: l)) (or_introl eq_refl)) as I.
  destruct (order_by_desc key (x :: l)); [destruct I | discriminate].
Qed.

Lemma next_version_nil {A} (version : A -> Z) :
  next_version version [] = 1%Z.
Proof. reflexivity. Qed.

Lemma next_version_max {A} (version : A -> Z) (rows : list A) :
  rows <> [] ->
  exists latest, In latest rows
    /\ (forall r, In r rows -> (version r <= version latest)%Z)
    /\ next_version version rows = (version latest + 1)%Z.
Proof.
  intros Hn. unfold next_version.
  destruct (first (order_by_desc version rows)) as [x|] eqn:E.
  - apply first_order_by_desc in E as [Hx Hmax]. now exists x.
  - apply first_order_by_desc_none in E. contradiction.
Qed.

Lemma next_version_above {A} (version : A -> Z) (rows : list A) (r : A) :
  In r rows -> (version r < next_version version rows)%Z.
Proof.
  intros Hr. destruct (next_version_max version (rows := rows))
    as (x & _ & Hmax & ->).
  - intros ->. destruct Hr.
  - specialize (Hmax r Hr). lia.
Qed.

Lemma next_version_snoc {A} (version : A -> Z) (rows : list A) (s : A) :
  version s = next_version version rows ->
  next_version version (rows ++ [s]) = (version s + 1)%Z.
Proof.
  intros Hs.
  destruct (next_version_max version (rows := rows ++ [s]))
    as (x & Hx & Hmax & ->).
  - intros E. apply app_eq_nil in E as [_ E]. discriminate.
  - assert (Hle : (version s <= version x)%Z).
    { apply Hmax. apply in_or_app. right. now left. }
    apply in_app_or in Hx as [Hx|[<-|[]]]; [|reflexivity].
    pose proof (next_version_above version rows x Hx). lia.
Qed.

(* ================================================================== *)
(** * Versions of summaries *)
(* ================================================================== *)

Lemma create_ai_summary_ok (ctx : Context) (meeting_id language : str)
  (w : World) (meeting : Meeting.t) :
  first (filter (fun m => str_eqb (Meeting.id m) meeting_id) (meetings w))
  = Some meeting ->
  pk_taken MeetingSummary.id (uuid4 ctx) (meeting_summaries w) = false ->
  int4_ok (next_version MeetingSummary.version (summaries_of w meeting_id))
  = true ->
  create_ai_summary ctx meeting_id language w
  = (Ok {| sz_summary_id := uuid4 ctx;
           sz_version :=
             next_version MeetingSummary.version (summaries_of w meeting_id);
           sz_language := language |},
     set_meeting_summaries
       (meeting_summaries w
          ++ [summary_row ctx meeting_id language meeting
                (next_version MeetingSummary.version
                   (summaries_of w meeting_id))]) w).
Proof.
  intros Hm Hpk Hv.
  unfold create_ai_summary, bind, query_meeting, gets. rewrite Hm.
  fold (summaries_of w meeting_id).
  fold (next_version MeetingSummary.version (summaries_of w meeting_id)).
  unfold add_meeting_summary. cbn [MeetingSummary.version MeetingSummary.id].
  rewrite Hv, Hpk. reflexivity.
Qed.


Lemma summaries_of_add (w : World) (s : MeetingSummary.t) :
  summaries_of
    (set_meeting_summaries (meeting_summaries w ++ [s]) w)
    (MeetingSummary.meeting_id s)
  = summaries_of w (MeetingSummary.meeting_id s) ++ [s].
Proof.
  unfold summaries_of. simpl. rewrite filter_app. simpl.
  now rewrite str_eqb_refl.
Qed.



(* ================================================================== *)
(** * Recipients of an email draft *)
(* ================================================================== *)

Lemma contacts_query_emails (rows : list Contact.t) (customer_id : str) :
  map Contact.email
    (filter (fun c => str_eqb (Contact.customer_id c) customer_id
                      && is_some (Contact.email c)) rows)
  = map Some
      (flat_map
         (fun c =>
            if str_eqb (Contact.customer_id c) customer_id
            then match Contact.email c with Some e => [e] | None => [] end
            else []) rows).
Proof.
  induction rows as [|c rows IH]; simpl; [reflexivity|].
  destruct (str_eqb (Contact.customer_id c) customer_id); simpl;
    [|exact IH].
  destruct (Contact.email c) as [e|] eqn:E; simpl; [|exact IH].
  now rewrite E, IH.
Qed.

(** C10.  On an existing meeting, draft-email stores a draft whose
    [to_emails] are the addresses of the first two contacts of the
    meeting's customer that have an address, in stored order, and whose
    [cc_emails] are the addresses of the remaining ones; with fewer than
    three such contacts [cc_emails] is empty, with none both lists are.
    The premises are those under which the INSERT is accepted. *)
Theorem draft_recipients (ctx : Context) (meeting_id language : str)
  (w : World) (meeting : Meeting.t) :
  first (filter (fun m => str_eqb (Meeting.id m) meeting_id) (meetings w))
  = Some meeting ->
  pk_taken EmailDraft.id (uuid4 ctx) (email_drafts w) = false ->
  int4_ok (next_version EmailDraft.version (drafts_of w meeting_id)) = true ->
  exists r w' draft,
    create_email_draft ctx meeting_id language w = (Ok r, w')
    /\ email_drafts w' = email_drafts w ++ [draft]
    /\ EmailDraft.id draft = dr_email_draft_id r
    /\ EmailDraft.meeting_id draft = meeting_id
    /\ EmailDraft.to_emails draft
       = map Some
           (firstn 2 (customer_emails w (Meeting.customer_id meeting)))
    /\ EmailDraft.cc_emails draft
       = map Some
           (skipn 2 (customer_emails w (Meeting.customer_id meeting)))
    /\ ((List.length (customer_emails w (Meeting.customer_id meeting)) < 3)%nat
        -> EmailDraft.cc_emails draft = [])
    /\ (customer_emails w (Meeting.customer_id meeting) = [] ->
        EmailDraft.to_emails draft = [] /\ EmailDraft.cc_emails draft = []).
Proof.
  intros Hm Hpk Hv.
  unfold create_email_draft, bind, query_meeting, gets. rewrite Hm.
  fold (drafts_of w meeting_id).
  fold (next_version EmailDraft.version (drafts_of w meeting_id)).
  unfold add_email_draft, slice_to, slice_from.
  cbn [EmailDraft.version EmailDraft.id]. rewrite Hv, Hpk.
  cbn [negb orb]. do 3 eexists.
  split; [reflexivity|]. cbn [email_drafts set_email_drafts].
  split; [reflexivity|].
  cbn [EmailDraft.id EmailDraft.meeting_id EmailDraft.to_emails
       EmailDraft.cc_emails dr_email_draft_id].
  rewrite <- firstn_map, <- skipn_map, contacts_query_emails.
  fold (customer_emails w (Meeting.customer_id meeting)).
  rewrite firstn_map, skipn_map.
  do 4 (split; [reflexivity|]). split.
  - intros Hl. rewrite skipn_all2 by lia. reflexivity.
  - intros ->. split; reflexivity.
Qed.

Lemma draft_recipients_witness :
  exists r w' draft,
    create_email_draft (request "d-1") (u "m-1") (u "en") demo_world
    = (Ok r, w')
    /\ email_drafts w' = [draft]
    /\ EmailDraft.to_emails draft
       = [Some (u "ann@acme.example"); Some (u "bob@acme.example")]
    /\ EmailDraft.cc_emails draft
       = [Some (u "cy@acme.example"); Some (u "di@acme.example")].
Proof.
  destruct (@draft_recipients (request "d-1") (u "m-1") (u "en") demo_world
              kickoff_meeting eq_refl eq_refl eq_refl)
    as (r & w' & draft & H & Hd & _ & _ & Hto & Hcc & _).
  exists r, w', draft. repeat split; assumption.
Defined.

(* ================================================================== *)
(** * Uploaded assets *)
(* ================================================================== *)

Lemma startswith_prefix (s p : str) :
  startswith s p = true <-> exists rest, s = p ++ rest.
Proof.
  revert s. induction p as [|x p IH]; intros s.
  - split; [intros _; now exists s | intros _; now destruct s].
  - destruct s as [|y s]; simpl.
    + split; [discriminate | intros [rest H]; discriminate H].
    + rewrite andb_true_iff, N.eqb_eq, IH. split.
      * intros [-> [rest ->]]. now exists rest.
      * intros [rest H]. injection H as -> ->. split; [reflexivity|].
        now exists rest.
Qed.

(** C7.  An upload to an existing meeting stores one asset row.  Its kind
    is "image" exactly when the content type of the part begins with
    "image/", and "file" for every other content type; its [file_url] is
    data/assets/{meeting_id}/{filename}, the path the content was written
    to.  The premises are those under which the handler reaches the
    INSERT and the INSERT is accepted. *)
Theorem upload_kind_and_path (ctx : Context) (meeting_id : str)
  (file : UploadFile) (w : World) (meeting : Meeting.t)
  (content_type_ file_name_ : str) :
  first (filter (fun m => str_eqb (Meeting.id m) meeting_id) (meetings w))
  = Some meeting ->
  content_type file = Some content_type_ ->
  filename file = Some file_name_ ->
  pk_taken MeetingAsset.id (uuid4 ctx) (meeting_assets w) = false ->
  exists r w' asset,
    upload_meeting_asset ctx true meeting_id file w = (Ok r, w')
    /\ meeting_assets w' = meeting_assets w ++ [asset]
    /\ MeetingAsset.id asset = ur_asset_id r
    /\ MeetingAsset.meeting_id asset = meeting_id
    /\ (MeetingAsset.kind asset = u "image"
        <-> exists rest, content_type_ = u "image/" ++ rest)
    /\ (MeetingAsset.kind asset = u "file"
        <-> ~ exists rest, content_type_ = u "image/" ++ rest)
    /\ MeetingAsset.file_url asset
       = u "data/assets/" ++ meeting_id ++ u "/" ++ file_name_
    /\ MeetingAsset.file_name asset = Some file_name_
    /\ In (MeetingAsset.file_url asset, body file) (files w').
Proof.
  intros Hm Hct Hfn Hpk.
  unfold upload_meeting_asset, bind, query_meeting, gets, save_file, modify.
  rewrite Hm, Hct, Hfn. unfold add_meeting_asset.
  cbn [MeetingAsset.kind MeetingAsset.id meeting_assets set_files].
  rewrite Hpk.
  pose proof (startswith_prefix content_type_ (u "image/")) as P.
  destruct (startswith content_type_ (u "image/")) eqn:E.
  - change (str_eqb (u "image") (u "image")) with true. cbn [negb orb].
    do 3 eexists. split; [reflexivity|].
    cbn [meeting_assets set_meeting_assets MeetingAsset.id
         MeetingAsset.meeting_id MeetingAsset.kind MeetingAsset.file_url
         MeetingAsset.file_name ur_asset_id files format_opt].
    do 3 (split; [reflexivity|]).
    split; [split; [intros _; now apply P | reflexivity]|].
    split.
    { split.
      - intros H. vm_compute in H. discriminate H.
      - intros H. exfalso. apply H. now apply P. }
    do 2 (split; [reflexivity|]). now left.
  - change (str_eqb (u "file") (u "image")) with false.
    change (str_eqb (u "file") (u "file")) with true. cbn [negb orb].
    do 3 eexists. split; [reflexivity|].
    cbn [meeting_assets set_meeting_assets MeetingAsset.id
         MeetingAsset.meeting_id MeetingAsset.kind MeetingAsset.file_url
         MeetingAsset.file_name ur_asset_id files format_opt].
    do 3 (split; [reflexivity|]).
    split.
    { split.
      - intros H. vm_compute in H. discriminate H.
      - intros H. apply P in H. discriminate H. }
    split.
    { split; [|reflexivity]. intros _ H. apply P in H. discriminate H. }
    do 2 (split; [reflexivity|]). now left.
Qed.

Lemma upload_kind_and_path_witness :
  exists r w' asset,
    upload_meeting_asset (request "a-1") true (u "m-1") png_upload demo_world
    = (Ok r, w')
    /\ meeting_assets w' = [asset]
    /\ MeetingAsset.kind asset = u "image"
    /\ MeetingAsset.file_url asset = u "data/assets/m-1/board.png".
Proof.
  destruct (@upload_kind_and_path (request "a-1") (u "m-1") png_upload
              demo_world kickoff_meeting (u "image/png") (u "board.png")
              eq_refl eq_refl eq_refl eq_refl)
    as (r & w' & asset & H & Ha & _ & _ & Hk & _ & Hu & _).
  exists r, w', asset. repeat split; try assumption.
  apply Hk. exists (u "png"). reflexivity.
Defined.

(** The two content types of the specification, evaluated. *)
Example upload_png_is_image :
  map MeetingAsset.kind
    (meeting_assets
       (snd (upload_meeting_asset (request "a-1") true (u "m-1") png_upload
               demo_world)))
  = [u "image"].
Proof. reflexivity. Qed.

Example upload_pdf_is_file :
  map (fun a => (MeetingAsset.kind a, MeetingAsset.file_url a))
    (meeting_assets
       (snd (upload_meeting_asset (request "a-2") true (u "m-1") pdf_upload
               demo_world)))
  = [(u "file", u "data/assets/m-1/minutes.pdf")].
Proof. reflexivity. Qed.

(* ================================================================== *)
(** * Deleting a customer *)
(* ================================================================== *)

Lemma pk_taken_In {A} (id : A -> str) (r : A) (loaded : list A) :
  In r loaded -> pk_taken id (id r) loaded = true.
Proof.
  intros H. apply existsb_exists. exists r. split; [exact H|].
  apply str_eqb_refl.
Qed.

Lemma delete_by_pk_In {A} (id : A -> str) (loaded rows : list A) (r : A) :
  In r (delete_by_pk id loaded rows)
  <-> In r rows /\ pk_taken id (id r) loaded = false.
Proof.
  unfold delete_by_pk. rewrite filter_In, negb_true_iff. reflexivity.
Qed.

Lemma removes_only_refl (w : World) : removes_only w w.
Proof. constructor; auto. Qed.

Lemma removes_only_trans (w1 w2 w3 : World) :
  removes_only w1 w2 -> removes_only w2 w3 -> removes_only w1 w3.
Proof. intros [] []. constructor; auto. Qed.

Lemma meeting_gone_mono (meeting_id : str) (w w' : World) :
  removes_only w w' -> meeting_gone meeting_id w -> meeting_gone meeting_id w'.
Proof. intros [] []. constructor; auto. Qed.

Lemma delete_meeting_removes_only (m : Meeting.t) (w : World) :
  removes_only w (delete_meeting m w).
Proof.
  constructor; simpl; auto; intros x Hx;
    apply delete_by_pk_In in Hx; tauto.
Qed.

(** A child row of the deleted object is among the loaded ones, so its
    primary key is deleted. *)
Lemma delete_loaded_children {A} (id fk : A -> str) (parent : str)
  (rows : list A) (r : A) :
  In r (delete_by_pk id (filter (fun x => str_eqb (fk x) parent) rows) rows) ->
  fk r <> parent.
Proof.
  intros H E. apply delete_by_pk_In in H as [Hin Hpk].
  rewrite pk_taken_In in Hpk; [discriminate|].
  apply filter_In. split; [exact Hin|]. now apply str_eqb_eq.
Qed.

Lemma delete_meeting_gone (m : Meeting.t) (w : World) :
  meeting_gone (Meeting.id m) (delete_meeting m w).
Proof.
  constructor; simpl.
  - intros x Hx E. apply delete_by_pk_In in Hx as [_ Hpk].
    simpl in Hpk. rewrite E, str_eqb_refl in Hpk. discriminate.
  - intros a. apply delete_loaded_children.
  - intros s. apply delete_loaded_children.
  - intros d. apply delete_loaded_children.
Qed.

Lemma delete_meetings_fold (ms : list Meeting.t) (acc : World) :
  removes_only acc (fold_left (fun a m => delete_meeting m a) ms acc)
  /\ forall m, In m ms ->
       meeting_gone (Meeting.id m)
         (fold_left (fun a m => delete_meeting m a) ms acc).
Proof.
  revert acc. induction ms as [|m ms IH]; intros acc; simpl.
  - split; [apply removes_only_refl | intros m []].
  - destruct (IH (delete_meeting m acc)) as [R G]. split.
    + eapply removes_only_trans; [apply delete_meeting_removes_only|exact R].
    + intros x [<-|Hx]; [|now apply G].
      eapply meeting_gone_mono; [exact R | apply delete_meeting_gone].
Qed.

(** C2.  Deleting an existing customer removes the customer, every contact
    and every meeting of the customer, and every asset, summary and draft
    of each of these meetings. *)
Theorem delete_customer_cascades (customer_id : str) (w : World)
  (customer : Customer.t) :
  In customer (customers w) ->
  Customer.id customer = customer_id ->
  exists w',
    delete_customer customer_id w
    = (Ok (u "Customer deleted successfully"), w')
    /\ (forall c, In c (customers w') -> Customer.id c <> customer_id)
    /\ (forall x, In x (contacts w') -> Contact.customer_id x <> customer_id)
    /\ (forall m, In m (meetings w') -> Meeting.customer_id m <> customer_id)
    /\ (forall m, In m (meetings w) -> Meeting.customer_id m = customer_id ->
        (forall a, In a (meeting_assets w') ->
                   MeetingAsset.meeting_id a <> Meeting.id m)
        /\ (forall s, In s (meeting_summaries w') ->
                      MeetingSummary.meeting_id s <> Meeting.id m)
        /\ (forall d, In d (email_drafts w') ->
                      EmailDraft.meeting_id d <> Meeting.id m))
    /\ removes_only w w'.
Proof.
  intros Hin Hid.
  unfold delete_customer, bind, query_customer, gets, modify.
  destruct (first (filter (fun c => str_eqb (Customer.id c) customer_id)
                     (customers w))) as [c|] eqn:Q.
  2:{ exfalso. unfold first in Q.
      assert (I : In customer (filter (fun c => str_eqb (Customer.id c)
                                                  customer_id) (customers w))).
      { apply filter_In. split; [exact Hin|]. now apply str_eqb_eq. }
      destruct (filter _ (customers w)); [destruct I | discriminate Q]. }
  apply first_filter_some in Q as [_ Qid]. apply str_eqb_eq in Qid.
  eexists. split; [reflexivity|].
  unfold delete_customer_cascade.
  set (w1 := set_contacts _ w).
  destruct (delete_meetings_fold (Customer_meetings w c) w1) as [R G].
  set (w2 := fold_left _ (Customer_meetings w c) w1) in *.
  assert (R1 : removes_only w w1).
  { constructor; simpl; auto. intros x Hx.
    apply delete_by_pk_In in Hx. tauto. }
  assert (R2 : removes_only w w2) by (eapply removes_only_trans; eauto).
  assert (M : forall m, In m (meetings w) ->
                Meeting.customer_id m = customer_id ->
                meeting_gone (Meeting.id m) w2).
  { intros m Hm Hc. apply G. apply filter_In. split; [exact Hm|].
    apply str_eqb_eq. congruence. }
  split.
  { simpl. intros x Hx E. apply delete_by_pk_In in Hx as [_ Hpk].
    simpl in Hpk. rewrite E, <- Qid, str_eqb_refl in Hpk. discriminate. }
  split.
  { simpl. intros x Hx. apply (ro_contacts R) in Hx. unfold w1 in Hx.
    simpl in Hx. unfold Customer_contacts in Hx. rewrite Qid in Hx.
    revert Hx. apply delete_loaded_children. }
  split.
  { simpl. intros m Hm E.
    apply (mg_meeting (M m (ro_meetings R2 _ Hm) E) m Hm). reflexivity. }
  split.
  { intros m Hm E. destruct (M m Hm E). simpl. auto. }
  destruct R2. constructor; simpl; auto.
  intros x Hx. apply delete_by_pk_In in Hx. tauto.
Qed.

(** The cascade on a state with two customers: everything of the first one
    goes, everything of the second one stays. *)
Example delete_acme :
  snd (delete_customer (u "c-1") two_customers)
  = {| customers := [globex];
       contacts := [globex_contact];
       meetings := [globex_meeting];
       meeting_assets := [asset_of "a-2" "m-2"];
       meeting_summaries :=
         [summary_row (request "s-2") (u "m-2") (u "he") globex_meeting 1];
       email_drafts := [draft_of "d-2" "m-2"];
       files := [] |}.
Proof. reflexivity. Qed.

Lemma delete_customer_cascades_witness :
  exists w',
    delete_customer (u "c-1") two_customers
    = (Ok (u "Customer deleted successfully"), w')
    /\ (forall x, In x (contacts w') -> Contact.customer_id x <> u "c-1")
    /\ (forall s, In s (meeting_summaries w') ->
                  MeetingSummary.meeting_id s <> u "m-1").
Proof.
  destruct (@delete_customer_cascades (u "c-1") two_customers acme
              (or_introl eq_refl) eq_refl)
    as (w' & H & _ & Hc & _ & Hm & _).
  exists w'. split; [exact H|]. split; [exact Hc|].
  apply (Hm kickoff_meeting); [now left | reflexivity].
Defined.

(* ================================================================== *)
(** * Requests that name an absent customer or meeting *)
(* ================================================================== *)








(* ================================================================== *)
(** * Creating, fetching and updating a customer *)
(* ================================================================== *)











(* ================================================================== *)
(** * Searching customers by name *)
(* ================================================================== *)




Lemma like_any (p : list like_token) (t : str) :
  like_match (LikeAny :: p) t = true
  <-> exists pre suf, t = pre ++ suf /\ like_match p suf = true.
Proof.
  induction t as [|c t IH].
  - simpl. rewrite orb_false_r. split.
    + intros H. now exists [], [].
    + intros (pre & suf & H & M). symmetry in H.
      apply app_eq_nil in H as [_ ->]. exact M.
  - change (like_match (LikeAny :: p) (c :: t))
      with (like_match p (c :: t) || like_match (LikeAny :: p) t).
    rewrite orb_true_iff, IH. split.
    + intros [H|(pre & suf & -> & M)].
      * now exists [], (c :: t).
      * now exists (c :: pre), suf.
    + intros (pre & suf & H & M). destruct pre as [|x pre].
      * left. simpl in H. now rewrite H.
      * right. injection H as _ H. now exists pre, suf.
Qed.


Lemma like_any_end (t : str) : like_match [LikeAny] t = true.
Proof. apply like_any. exists t, []. now rewrite app_nil_r. Qed.







(* ================================================================== *)
(** * Contacts *)
(* ================================================================== *)

Lemma query_customer_found (w : World) (customer_id : str)
  (customer : Customer.t) :
  first (filter (fun c => str_eqb (Customer.id c) customer_id) (customers w))
  = Some customer ->
  query_customer customer_id w = (Ok (Some customer), w).
Proof. intros H. unfold query_customer, gets. now rewrite H. Qed.

Lemma create_contact_ok (ctx : Context) (customer_id e : str)
  (contact : ContactCreate) (w : World) (customer : Customer.t) :
  first (filter (fun c => str_eqb (Customer.id c) customer_id) (customers w))
  = Some customer ->
  cn_email contact = Some e ->
  pk_taken Contact.id (uuid4 ctx) (contacts w) = false ->
  create_contact ctx customer_id contact w
  = (Ok {| cnr_name := cn_name contact; cnr_role := cn_role contact;
           cnr_phone := cn_phone contact; cnr_email := Some e;
           cnr_id := uuid4 ctx; cnr_customer_id := customer_id |},
     set_contacts (contacts w ++ [contact_row ctx customer_id contact]) w).
Proof.
  intros Hq He Hpk. apply query_customer_found in Hq.
  unfold create_contact, bind. rewrite Hq.
  unfold add_contact. cbn [Contact.email Contact.id]. rewrite He, Hpk.
  cbn [is_some negb orb]. unfold ContactResponse_of, contact_row.
  cbn. rewrite He. reflexivity.
Qed.







(* ================================================================== *)
(** * The meetings of a customer, latest first *)
(* ================================================================== *)

From Stdlib Require Import Permutation Sorted.










(** The order of the answer on the sample state. *)
Example four_meetings_order :
  match fst (get_customer_meetings (u "c-1") four_meetings) with
  | Ok l => map mr_id l
  | Raise _ => []
  end
  = [u "m-b"; u "m-d"; u "m-a"; u "m-c"].
Proof. reflexivity. Qed.

(* ================================================================== *)
(** * Versions of drafts, and what a new version leaves alone *)
(* ================================================================== *)


(** What a successful call tells about the request and the new state. *)
Lemma create_ai_summary_inv (ctx : Context) (meeting_id language : str)
  (w w' : World) (r : SummarizeResult) :
  create_ai_summary ctx meeting_id language w = (Ok r, w') ->
  exists meeting,
    first (filter (fun m => str_eqb (Meeting.id m) meeting_id) (meetings w))
    = Some meeting
    /\ pk_taken MeetingSummary.id (uuid4 ctx) (meeting_summaries w) = false
    /\ sz_version r
       = next_version MeetingSummary.version (summaries_of w meeting_id)
    /\ sz_summary_id r = uuid4 ctx
    /\ w' = set_meeting_summaries
              (meeting_summaries w
                 ++ [summary_row ctx meeting_id language meeting
                       (sz_version r)]) w.
Proof.
  unfold create_ai_summary, bind, query_meeting, gets.
  destruct (first (filter (fun m => str_eqb (Meeting.id m) meeting_id)
                     (meetings w))) as [meeting|] eqn:Q;
    [|unfold not_found, raise; discriminate].
  fold (summaries_of w meeting_id).
  fold (next_version MeetingSummary.version (summaries_of w meeting_id)).
  unfold add_meeting_summary. cbn [MeetingSummary.version MeetingSummary.id].
  destruct (int4_ok _); cbn [negb orb]; [|discriminate].
  destruct (pk_taken MeetingSummary.id (uuid4 ctx) (meeting_summaries w))
    eqn:Hpk; [discriminate|].
  intros H. injection H as <- <-. exists meeting.
  repeat split; reflexivity.
Qed.

Lemma create_email_draft_inv (ctx : Context) (meeting_id language : str)
  (w w' : World) (r : DraftResult) :
  create_email_draft ctx meeting_id language w = (Ok r, w') ->
  exists meeting,
    first (filter (fun m => str_eqb (Meeting.id m) meeting_id) (meetings w))
    = Some meeting
    /\ pk_taken EmailDraft.id (uuid4 ctx) (email_drafts w) = false
    /\ dr_version r = next_version EmailDraft.version (drafts_of w meeting_id)
    /\ dr_email_draft_id r = uuid4 ctx
    /\ w' = set_email_drafts
              (email_drafts w
                 ++ [draft_row ctx meeting_id language w meeting
                       (dr_version r)]) w.
Proof.
  unfold create_email_draft, bind, query_meeting, gets.
  destruct (first (filter (fun m => str_eqb (Meeting.id m) meeting_id)
                     (meetings w))) as [meeting|] eqn:Q;
    [|unfold not_found, raise; discriminate].
  fold (drafts_of w meeting_id).
  fold (next_version EmailDraft.version (drafts_of w meeting_id)).
  unfold add_email_draft, slice_to, slice_from.
  cbn [EmailDraft.version EmailDraft.id].
  destruct (int4_ok _); cbn [negb orb]; [|discriminate].
  destruct (pk_taken EmailDraft.id (uuid4 ctx) (email_drafts w))
    eqn:Hpk; [discriminate|].
  intros H. injection H as <- <-. exists meeting.
  repeat split; reflexivity.
Qed.

Lemma drafts_of_add (w : World) (d : EmailDraft.t) :
  drafts_of (set_email_drafts (email_drafts w ++ [d]) w)
    (EmailDraft.meeting_id d)
  = drafts_of w (EmailDraft.meeting_id d) ++ [d].
Proof.
  unfold drafts_of. simpl. rewrite filter_app. simpl.
  now rewrite str_eqb_refl.
Qed.

Lemma summaries_of_add_other (w : World) (s : MeetingSummary.t)
  (meeting_id : str) :
  meeting_id <> MeetingSummary.meeting_id s ->
  summaries_of (set_meeting_summaries (meeting_summaries w ++ [s]) w)
    meeting_id
  = summaries_of w meeting_id.
Proof.
  intros H. unfold summaries_of. simpl. rewrite filter_app. simpl.
  assert (E : str_eqb (MeetingSummary.meeting_id s) meeting_id = false)
    by (apply str_eqb_neq; congruence).
  rewrite E. apply app_nil_r.
Qed.

Lemma drafts_of_add_other (w : World) (d : EmailDraft.t) (meeting_id : str) :
  meeting_id <> EmailDraft.meeting_id d ->
  drafts_of (set_email_drafts (email_drafts w ++ [d]) w) meeting_id
  = drafts_of w meeting_id.
Proof.
  intros H. unfold drafts_of. simpl. rewrite filter_app. simpl.
  assert (E : str_eqb (EmailDraft.meeting_id d) meeting_id = false)
    by (apply str_eqb_neq; congruence).
  rewrite E. apply app_nil_r.
Qed.



(** X6.  The counters are separate.  A stored summary moves only the
    counter of summaries of its own meeting: the summaries of every other
    meeting and the drafts of every meeting, hence their next versions,
    stay as they were; and the same holds for a stored draft. *)
Theorem version_counters_are_separate (ctx : Context)
  (meeting_id language : str) (w : World) :
  (forall r w',
     create_ai_summary ctx meeting_id language w = (Ok r, w') ->
     next_version MeetingSummary.version (summaries_of w' meeting_id)
     = (sz_version r + 1)%Z
     /\ (forall other, other <> meeting_id ->
         summaries_of w' other = summaries_of w other)
     /\ (forall any, drafts_of w' any = drafts_of w any))
  /\ (forall r w',
     create_email_draft ctx meeting_id language w = (Ok r, w') ->
     next_version EmailDraft.version (drafts_of w' meeting_id)
     = (dr_version r + 1)%Z
     /\ (forall other, other <> meeting_id ->
         drafts_of w' other = drafts_of w other)
     /\ (forall any, summaries_of w' any = summaries_of w any)).
Proof.
  split; intros r w' H.
  - apply create_ai_summary_inv in H as (m & _ & _ & Hv & _ & ->).
    set (row := summary_row ctx meeting_id language m (sz_version r)).
    split.
    { pose proof (summaries_of_add w row) as S.
      change (MeetingSummary.meeting_id row) with meeting_id in S.
      rewrite S. now rewrite next_version_snoc. }
    split; [|reflexivity].
    intros other Ho. now apply (summaries_of_add_other w row).
  - apply create_email_draft_inv in H as (m & _ & _ & Hv & _ & ->).
    set (row := draft_row ctx meeting_id language w m (dr_version r)).
    split.
    { pose proof (drafts_of_add w row) as S.
      change (EmailDraft.meeting_id row) with meeting_id in S.
      rewrite S. now rewrite next_version_snoc. }
    split; [|reflexivity].
    intros other Ho. now apply (drafts_of_add_other w row).
Qed.

Lemma version_counters_are_separate_witness :
  exists r w',
    create_ai_summary (request "s-3") (u "m-1") (u "en") summarized_world
    = (Ok r, w')
    /\ sz_version r = 3%Z
    /\ drafts_of w' (u "m-1") = drafts_of summarized_world (u "m-1").
Proof.
  destruct (version_counters_are_separate (request "s-3") (u "m-1") (u "en")
              summarized_world) as [S _].
  pose proof (@create_ai_summary_ok (request "s-3") (u "m-1") (u "en")
                summarized_world kickoff_meeting eq_refl eq_refl eq_refl)
    as E.
  destruct (S _ _ E) as (_ & _ & Hd).
  eexists. eexists. split; [exact E|]. split; [reflexivity|apply Hd].
Defined.

Lemma NoDup_snoc {A} (l : list A) (x : A) :
  NoDup l -> ~ In x l -> NoDup (l ++ [x]).
Proof.
  intros Hl Hx. induction Hl as [|y l Hy Hl IH]; simpl.
  - constructor; [intros []|constructor].
  - constructor.
    + intros H. apply in_app_or in H as [H|[<-|[]]]; [contradiction|].
      apply Hx. now left.
    + apply IH. intros H. apply Hx. now right.
Qed.

Lemma next_version_not_in {A} (version : A -> Z) (rows : list A) :
  ~ In (next_version version rows) (map version rows).
Proof.
  intros H. apply in_map_iff in H as (r & Hr & Hin).
  pose proof (next_version_above version rows r Hin). lia.
Qed.

(** X7.  Versions stay distinct.  If no two summaries of one meeting and no
    two drafts of one meeting share a version, this still holds after a
    stored summary and after a stored draft; the new version is greater
    than every version the meeting had. *)
Theorem versions_stay_distinct (ctx : Context) (meeting_id language : str)
  (w : World) :
  versions_distinct w ->
  (forall r w',
     create_ai_summary ctx meeting_id language w = (Ok r, w') ->
     versions_distinct w'
     /\ forall s, In s (summaries_of w meeting_id) ->
                  (MeetingSummary.version s < sz_version r)%Z)
  /\ (forall r w',
     create_email_draft ctx meeting_id language w = (Ok r, w') ->
     versions_distinct w'
     /\ forall d, In d (drafts_of w meeting_id) ->
                  (EmailDraft.version d < dr_version r)%Z).
Proof.
  intros D. split; intros r w' H.
  - apply create_ai_summary_inv in H as (m & _ & _ & Hv & _ & ->).
    set (row := summary_row ctx meeting_id language m (sz_version r)).
    split.
    + intros mid. destruct (D mid) as [Ds Dd]. split; [|exact Dd].
      destruct (str_eqb mid meeting_id) eqn:E.
      * apply str_eqb_eq in E. subst mid.
        pose proof (summaries_of_add w row) as S.
        change (MeetingSummary.meeting_id row) with meeting_id in S.
        rewrite S, map_app. apply NoDup_snoc; [exact Ds|].
        cbn [map MeetingSummary.version row summary_row]. rewrite Hv.
        apply next_version_not_in.
      * apply str_eqb_neq in E.
        now rewrite (summaries_of_add_other w row).
    + intros s Hs. rewrite Hv. now apply next_version_above.
  - apply create_email_draft_inv in H as (m & _ & _ & Hv & _ & ->).
    set (row := draft_row ctx meeting_id language w m (dr_version r)).
    split.
    + intros mid. destruct (D mid) as [Ds Dd]. split; [exact Ds|].
      destruct (str_eqb mid meeting_id) eqn:E.
      * apply str_eqb_eq in E. subst mid.
        pose proof (drafts_of_add w row) as S.
        change (EmailDraft.meeting_id row) with meeting_id in S.
        rewrite S, map_app. apply NoDup_snoc; [exact Dd|].
        cbn [map EmailDraft.version row draft_row]. rewrite Hv.
        apply next_version_not_in.
      * apply str_eqb_neq in E.
        now rewrite (drafts_of_add_other w row).
    + intros d Hd. rewrite Hv. now apply next_version_above.
Qed.

Lemma summarized_world_distinct : versions_distinct summarized_world.
Proof.
  intros mid. destruct (str_eqb mid (u "m-1")) eqn:E.
  - apply str_eqb_eq in E. subst mid. split.
    + change (NoDup [1%Z; 2%Z]).
      repeat constructor; simpl; intuition discriminate.
    + change (NoDup [1%Z]). repeat constructor; simpl; tauto.
  - apply str_eqb_neq in E. unfold summaries_of, drafts_of.
    rewrite !filter_none; [split; constructor| |].
    + intros d [<-|[]]. apply str_eqb_neq. intros H. apply E. now rewrite <- H.
    + intros x [<-|[<-|[]]]; apply str_eqb_neq; intros H; apply E;
        now rewrite <- H.
Defined.

Lemma versions_stay_distinct_witness :
  versions_distinct summarized_world
  /\ versions_distinct
       (snd (create_ai_summary (request "s-3") (u "m-1") (u "en")
               summarized_world)).
Proof.
  split; [exact summarized_world_distinct|].
  destruct (@versions_stay_distinct (request "s-3") (u "m-1") (u "en")
              summarized_world summarized_world_distinct) as [S _].
  pose proof (@create_ai_summary_ok (request "s-3") (u "m-1") (u "en")
                summarized_world kickoff_meeting eq_refl eq_refl eq_refl)
    as E.
  rewrite E. exact (proj1 (S _ _ E)).
Defined.

(* ================================================================== *)
(** * Failed requests, and uploads that fail half way *)
(* ================================================================== *)

Lemma query_meeting_found (w : World) (meeting_id : str) (meeting : Meeting.t) :
  first (filter (fun m => str_eqb (Meeting.id m) meeting_id) (meetings w))
  = Some meeting ->
  query_meeting meeting_id w = (Ok (Some meeting), w).
Proof. intros H. unfold query_meeting, gets. now rewrite H. Qed.






(** X9.  An upload can fail after the file is written.  On an existing
    meeting, a part without content type ends in AttributeError, and a
    part whose identifier is taken ends in a database error: in both cases
    the content is on disk under data/assets/{meeting_id}/{filename} and no
    asset row refers to it.  When the write itself fails nothing changes. *)
Theorem upload_can_leave_an_orphan_file (ctx : Context) (meeting_id : str)
  (file : UploadFile) (w : World) (meeting : Meeting.t) :
  first (filter (fun m => str_eqb (Meeting.id m) meeting_id) (meetings w))
  = Some meeting ->
  (content_type file = None ->
   upload_meeting_asset ctx true meeting_id file w
   = (Raise AttributeError,
      written (stored_path meeting_id file) (body file) w))
  /\ (forall content_type_,
        content_type file = Some content_type_ ->
        pk_taken MeetingAsset.id (uuid4 ctx) (meeting_assets w) = true ->
        upload_meeting_asset ctx true meeting_id file w
        = (Raise DatabaseError,
           written (stored_path meeting_id file) (body file) w))
  /\ upload_meeting_asset ctx false meeting_id file w = (Raise OSError, w)
  /\ meeting_assets (written (stored_path meeting_id file) (body file) w)
     = meeting_assets w
  /\ stored_at (written (stored_path meeting_id file) (body file) w)
       (stored_path meeting_id file)
     = [body file].
Proof.
  intros Hm. apply query_meeting_found in Hm.
  split; [|split; [|split; [|split]]].
  - intros Hct. unfold upload_meeting_asset, bind. rewrite Hm.
    unfold save_file, modify. rewrite Hct. reflexivity.
  - intros ct Hct Hpk. unfold upload_meeting_asset, bind. rewrite Hm.
    unfold save_file, modify. rewrite Hct. unfold add_meeting_asset.
    cbn [MeetingAsset.kind MeetingAsset.id meeting_assets set_files].
    rewrite Hpk, orb_true_r. reflexivity.
  - unfold upload_meeting_asset, bind. rewrite Hm. reflexivity.
  - reflexivity.
  - unfold stored_at, written. cbn [files set_files filter fst].
    rewrite str_eqb_refl. cbn [map snd]. f_equal.
    rewrite filter_none; [reflexivity|].
    intros f Hf. apply filter_In in Hf as [_ Hf].
    now apply negb_true_iff in Hf.
Qed.

Lemma upload_can_leave_an_orphan_file_witness :
  upload_meeting_asset (request "a-1") true (u "m-1") untyped_upload demo_world
  = (Raise AttributeError,
     written (u "data/assets/m-1/notes.txt") (body untyped_upload) demo_world).
Proof.
  destruct (@upload_can_leave_an_orphan_file (request "a-1") (u "m-1")
              untyped_upload demo_world kickoff_meeting eq_refl) as [H _].
  exact (H eq_refl).
Defined.




(* ================================================================== *)
(** * Listing customers: pages, wild cards, letter case *)
(* ================================================================== *)






Lemma like_match_all_any (p : list like_token) (t : str) :
  Forall (fun k => k = LikeAny) p -> p <> [] -> like_match p t = true.
Proof.
  intros Hp. revert t. induction Hp as [|k p -> Hp IH]; intros t Hn;
    [congruence|].
  destruct p as [|k' p].
  - apply like_any_end.
  - apply like_any. exists [], t. split; [reflexivity|].
    apply IH. discriminate.
Qed.

Lemma like_pattern_percents (s : str) :
  forallb (N.eqb 37) s = true ->
  exists p, like_pattern s = Some p
            /\ Forall (fun k => k = LikeAny) p
            /\ List.length p = List.length s.
Proof.
  induction s as [|c s IH]; cbn [forallb].
  - intros _. exists []. repeat split. constructor.
  - intros H. apply andb_true_iff in H as [Hc Hs]. apply N.eqb_eq in Hc.
    subst c. destruct (IH Hs) as (p & Hp & Hany & Hl).
    exists (LikeAny :: p).
    change (like_pattern (37%N :: s))
      with (option_map (cons LikeAny) (like_pattern s)).
    rewrite Hp. cbn [option_map List.length]. repeat split; [|now rewrite Hl].
    now constructor.
Qed.

(** X12.  A search term made of [%] characters only is no filter: it
    returns what the listing without search term returns. *)
Theorem percent_search_matches_all (s : str) (limit offset : Z) (w : World) :
  s <> [] -> forallb (N.eqb 37) s = true ->
  get_customers (Some s) limit offset w = get_customers None limit offset w.
Proof.
  intros Hn Hs. unfold get_customers, bind, gets, ret.
  destruct s as [|c s]; [congruence|]. cbn [opt_truthy truthy format_opt].
  assert (Hl : lower (u "%" ++ (c :: s) ++ u "%") = u "%" ++ (c :: s) ++ u "%").
  { unfold lower. rewrite !map_app. f_equal. f_equal.
    clear Hn. induction (c :: s) as [|x l IH]; [reflexivity|].
    cbn [forallb] in Hs. apply andb_true_iff in Hs as [Hx Hs].
    apply N.eqb_eq in Hx. subst x. cbn [map]. now rewrite IH. }
  assert (Hall : forallb (N.eqb 37) (u "%" ++ (c :: s) ++ u "%") = true).
  { rewrite !forallb_app, Hs. reflexivity. }
  destruct (like_pattern_percents _ Hall) as (p & Hp & Hany & Hlen).
  unfold ilike. rewrite Hl, Hp. cbn [option_map].
  assert (Hne : p <> []).
  { intros ->. simpl in Hlen. discriminate. }
  replace (filter (fun c0 => like_match p (lower (Customer.name c0)))
             (customers w)) with (customers w); [reflexivity|].
  symmetry. induction (customers w) as [|x l IH]; [reflexivity|].
  simpl. rewrite (like_match_all_any _ Hany Hne). now rewrite IH.
Qed.

Lemma percent_search_matches_all_witness :
  get_customers (Some (u "%%")) default_limit default_offset two_customers
  = get_customers None default_limit default_offset two_customers.
Proof.
  apply percent_search_matches_all; [vm_compute; discriminate | reflexivity].
Defined.



(* ================================================================== *)
(** * Unique identifiers, and what a deletion keeps *)
(* ================================================================== *)

Lemma NoDup_map_filter {A B} (key : A -> B) (keep : A -> bool)
  (rows : list A) :
  NoDup (map key rows) -> NoDup (map key (filter keep rows)).
Proof.
  intros U. induction rows as [|r rows IH]; [exact U|].
  simpl in U. inversion U as [|? ? Hr Hrows]; subst. simpl.
  destruct (keep r); simpl; [|now apply IH].
  constructor; [|now apply IH].
  intros I. apply Hr. apply in_map_iff in I as (y & Hy & Hin).
  apply in_map_iff. exists y. split; [exact Hy|].
  apply filter_In in Hin. tauto.
Qed.

Lemma NoDup_map_inj {A B} (f : A -> B) (l : list A) (x y : A) :
  NoDup (map f l) -> In x l -> In y l -> f x = f y -> x = y.
Proof.
  induction l as [|z l IH]; simpl; [tauto|].
  intros H Hx Hy E. inversion H as [|? ? Hz Hl]; subst.
  destruct Hx as [->|Hx], Hy as [->|Hy]; auto.
  - exfalso. apply Hz. rewrite E. now apply in_map.
  - exfalso. apply Hz. rewrite <- E. now apply in_map.
Qed.

Lemma NoDup_map_snoc {A} (id : A -> str) (rows : list A) (r : A) :
  NoDup (map id rows) -> pk_taken id (id r) rows = false ->
  NoDup (map id (rows ++ [r])).
Proof.
  intros H Hpk. rewrite map_app. apply NoDup_snoc; [exact H|].
  intros I. apply in_map_iff in I as (y & Hy & Hin).
  now apply (proj1 (pk_taken_false id (id r) rows) Hpk y Hin).
Qed.

(** With unique keys, deleting the loaded children of a parent removes the
    children and nothing else. *)
Lemma delete_children_exact {A} (id fk : A -> str) (parent : str)
  (rows : list A) (r : A) :
  NoDup (map id rows) ->
  (In r (delete_by_pk id (filter (fun x => str_eqb (fk x) parent) rows) rows)
   <-> In r rows /\ fk r <> parent).
Proof.
  intros U. split.
  - intros H. split; [apply delete_by_pk_In in H; tauto|].
    revert H. apply delete_loaded_children.
  - intros [Hin Hfk]. apply delete_by_pk_In. split; [exact Hin|].
    apply pk_taken_false. intros y Hy E.
    apply filter_In in Hy as [Hy Hp]. apply str_eqb_eq in Hp.
    assert (y = r) by (eapply NoDup_map_inj; eauto). congruence.
Qed.

Lemma delete_meeting_unique (m : Meeting.t) (w : World) :
  unique_ids w -> unique_ids (delete_meeting m w).
Proof.
  intros []. constructor; simpl; auto; apply NoDup_map_filter; assumption.
Qed.

Lemma delete_meeting_exact (m : Meeting.t) (w : World) :
  unique_ids w ->
  (forall x, In x (meetings (delete_meeting m w))
             <-> In x (meetings w) /\ Meeting.id x <> Meeting.id m)
  /\ (forall a, In a (meeting_assets (delete_meeting m w))
                <-> In a (meeting_assets w)
                    /\ MeetingAsset.meeting_id a <> Meeting.id m)
  /\ (forall s, In s (meeting_summaries (delete_meeting m w))
                <-> In s (meeting_summaries w)
                    /\ MeetingSummary.meeting_id s <> Meeting.id m)
  /\ (forall d, In d (email_drafts (delete_meeting m w))
                <-> In d (email_drafts w)
                    /\ EmailDraft.meeting_id d <> Meeting.id m)
  /\ customers (delete_meeting m w) = customers w
  /\ contacts (delete_meeting m w) = contacts w
  /\ files (delete_meeting m w) = files w.
Proof.
  intros [Uc Uk Um Ua Us Ud].
  split; [|split; [|split; [|split; [|repeat split]]]].
  - intros x.
    change (meetings (delete_meeting m w))
      with (delete_by_pk Meeting.id [m] (meetings w)).
    rewrite delete_by_pk_In. unfold pk_taken. cbn [existsb].
    rewrite orb_false_r, str_eqb_neq. split.
    + intros [Hx Hp]. split; [exact Hx | congruence].
    + intros [Hx Hp]. split; [exact Hx | congruence].
  - intros a.
    change (meeting_assets (delete_meeting m w))
      with (delete_by_pk MeetingAsset.id (Meeting_assets w m)
              (meeting_assets w)).
    apply delete_children_exact. exact Ua.
  - intros s.
    change (meeting_summaries (delete_meeting m w))
      with (delete_by_pk MeetingSummary.id (Meeting_summaries w m)
              (meeting_summaries w)).
    apply delete_children_exact. exact Us.
  - intros d.
    change (email_drafts (delete_meeting m w))
      with (delete_by_pk EmailDraft.id (Meeting_email_drafts w m)
              (email_drafts w)).
    apply delete_children_exact. exact Ud.
Qed.

Lemma delete_meetings_exact (ms : list Meeting.t) (acc : World) :
  unique_ids acc ->
  let w' := fold_left (fun a m => delete_meeting m a) ms acc in
  unique_ids w'
  /\ (forall x, In x (meetings w')
                <-> In x (meetings acc)
                    /\ forall m, In m ms -> Meeting.id x <> Meeting.id m)
  /\ (forall a, In a (meeting_assets w')
                <-> In a (meeting_assets acc)
                    /\ forall m, In m ms ->
                                 MeetingAsset.meeting_id a <> Meeting.id m)
  /\ (forall s, In s (meeting_summaries w')
                <-> In s (meeting_summaries acc)
                    /\ forall m, In m ms ->
                                 MeetingSummary.meeting_id s <> Meeting.id m)
  /\ (forall d, In d (email_drafts w')
                <-> In d (email_drafts acc)
                    /\ forall m, In m ms ->
                                 EmailDraft.meeting_id d <> Meeting.id m)
  /\ customers w' = customers acc
  /\ contacts w' = contacts acc
  /\ files w' = files acc.
Proof.
  revert acc. induction ms as [|m ms IH]; intros acc U; simpl.
  - split; [exact U|].
    do 4 (split; [intros x; split;
                    [intros H; split; [exact H | intros m []]
                    | intros [H _]; exact H]|]).
    repeat split; reflexivity.
  - destruct (delete_meeting_exact m U) as (M1 & A1 & S1 & D1 & C1 & K1 & F1).
    destruct (IH _ (delete_meeting_unique m U))
      as (U' & M & A & S & D & C & K & F).
    split; [exact U'|].
    split; [intros x; rewrite M, M1; firstorder (subst; auto)|].
    split; [intros x; rewrite A, A1; firstorder (subst; auto)|].
    split; [intros x; rewrite S, S1; firstorder (subst; auto)|].
    split; [intros x; rewrite D, D1; firstorder (subst; auto)|].
    repeat split; congruence.
Qed.

(** X14.  With unique primary keys, deleting a customer removes exactly
    what belongs to it: the customers, contacts and meetings with another
    customer identifier stay, and so do the assets, summaries and drafts of
    every meeting that is not a meeting of the deleted customer; the asset
    files stay on disk; the keys are still unique. *)
Theorem delete_customer_removes_exactly (customer_id : str) (w : World)
  (customer : Customer.t) :
  unique_ids w ->
  In customer (customers w) ->
  Customer.id customer = customer_id ->
  exists w',
    delete_customer customer_id w
    = (Ok (u "Customer deleted successfully"), w')
    /\ (forall c, In c (customers w')
                  <-> In c (customers w) /\ Customer.id c <> customer_id)
    /\ (forall x, In x (contacts w')
                  <-> In x (contacts w) /\ Contact.customer_id x <> customer_id)
    /\ (forall m, In m (meetings w')
                  <-> In m (meetings w) /\ Meeting.customer_id m <> customer_id)
    /\ (forall a, In a (meeting_assets w')
                  <-> In a (meeting_assets w)
                      /\ ~ meeting_of_customer w customer_id
                             (MeetingAsset.meeting_id a))
    /\ (forall s, In s (meeting_summaries w')
                  <-> In s (meeting_summaries w)
                      /\ ~ meeting_of_customer w customer_id
                             (MeetingSummary.meeting_id s))
    /\ (forall d, In d (email_drafts w')
                  <-> In d (email_drafts w)
                      /\ ~ meeting_of_customer w customer_id
                             (EmailDraft.meeting_id d))
    /\ files w' = files w
    /\ unique_ids w'.
Proof.
  intros U Hin Hid.
  unfold delete_customer, bind, query_customer, gets, modify.
  destruct (first (filter (fun c => str_eqb (Customer.id c) customer_id)
                     (customers w))) as [c|] eqn:Q.
  2:{ exfalso. unfold first in Q.
      assert (I : In customer (filter (fun c => str_eqb (Customer.id c)
                                                  customer_id) (customers w))).
      { apply filter_In. split; [exact Hin|]. now apply str_eqb_eq. }
      destruct (filter _ (customers w)); [destruct I | discriminate Q]. }
  apply first_filter_some in Q as [Qin Qid]. apply str_eqb_eq in Qid.
  eexists. split; [reflexivity|].
  unfold delete_customer_cascade.
  set (w1 := set_contacts _ w).
  assert (U1 : unique_ids w1).
  { destruct U. constructor; simpl; auto. now apply NoDup_map_filter. }
  destruct (delete_meetings_exact (Customer_meetings w c) U1)
    as (U2 & M & A & S & D & C & K & F).
  set (w2 := fold_left _ (Customer_meetings w c) w1) in *.
  assert (Own : forall mid,
            (forall m, In m (Customer_meetings w c) -> mid <> Meeting.id m)
            <-> ~ meeting_of_customer w customer_id mid).
  { intros mid. unfold meeting_of_customer, Customer_meetings. split.
    - intros H (m & Hm & Hc & Hi). apply (H m); [|congruence].
      apply filter_In. split; [exact Hm|]. apply str_eqb_eq. congruence.
    - intros H m Hm E. apply H. exists m.
      apply filter_In in Hm as [Hm Hc]. apply str_eqb_eq in Hc.
      repeat split; congruence. }
  split.
  { intros x. simpl. rewrite delete_by_pk_In. simpl.
    rewrite orb_false_r, <- Qid. split.
    - intros [Hx Hp]. split; [exact Hx|]. apply str_eqb_neq in Hp. congruence.
    - intros [Hx Hp]. split; [exact Hx|]. apply str_eqb_neq. congruence. }
  split.
  { intros x. simpl. rewrite K. unfold w1. simpl. unfold Customer_contacts.
    rewrite Qid. apply delete_children_exact. now destruct U. }
  split.
  { intros m. simpl. rewrite M. unfold w1. simpl. split.
    - intros [Hm Hn]. split; [exact Hm|]. intros E. apply (Hn m); [|reflexivity].
      apply filter_In. split; [exact Hm|]. apply str_eqb_eq. congruence.
    - intros [Hm Hn]. split; [exact Hm|]. intros m' Hm' E.
      apply filter_In in Hm' as [Hm' Hc]. apply str_eqb_eq in Hc.
      assert (m = m').
      { eapply NoDup_map_inj; eauto. now destruct U. }
      congruence. }
  split; [intros a; simpl; rewrite A, Own; reflexivity|].
  split; [intros s; simpl; rewrite S, Own; reflexivity|].
  split; [intros d; simpl; rewrite D, Own; reflexivity|].
  split; [simpl; rewrite F; reflexivity|].
  destruct U2. constructor; simpl; auto. apply NoDup_map_filter.
  now destruct U.
Qed.

Lemma NoDup_by_compute (l : list str) :
  forallb (fun p => negb (str_eqb (fst p) (snd p))) 
    (flat_map (fun i => map (fun j => (nth i l [], nth j l []))
                          (seq 0 i)) (seq 0 (List.length l))) = true ->
  NoDup l.
Proof.
  intros H. apply (NoDup_nth l []). intros i j Hi Hj E.
  destruct (Nat.eq_dec i j) as [|Hne]; [assumption|exfalso].
  rewrite forallb_forall in H.
  assert (key : forall a b, (b < a)%nat -> (a < List.length l)%nat ->
                  nth a l [] <> nth b l []).
  { intros a b Hba Ha Eab.
    specialize (H (nth a l [], nth b l [])).
    rewrite negb_true_iff in H. cbn [fst snd] in H.
    rewrite (proj2 (str_eqb_eq _ _) Eab) in H.
    assert (discr : true = false); [|discriminate discr].
    apply H. apply in_flat_map. exists a. split.
    - apply in_seq. lia.
    - apply in_map_iff. exists b. split; [reflexivity|]. apply in_seq. lia. }
  destruct (Nat.lt_ge_cases i j).
  - apply (key j i); auto.
  - apply (key i j); auto; lia.
Qed.

Lemma two_customers_unique : unique_ids two_customers.
Proof.
  constructor; apply NoDup_by_compute; vm_compute; reflexivity.
Defined.

Lemma delete_customer_removes_exactly_witness :
  exists w',
    delete_customer (u "c-1") two_customers
    = (Ok (u "Customer deleted successfully"), w')
    /\ In globex_contact (contacts w')
    /\ In (asset_of "a-2" "m-2") (meeting_assets w').
Proof.
  destruct (@delete_customer_removes_exactly (u "c-1") two_customers acme
              two_customers_unique (or_introl eq_refl) eq_refl)
    as (w' & H & _ & K & _ & A & _).
  exists w'. split; [exact H|]. split.
  - apply K. split; [simpl; tauto|]. vm_compute. discriminate.
  - apply A. split; [simpl; tauto|].
    intros (m & [<-|[<-|[]]] & Hc & Hi); vm_compute in Hc, Hi; discriminate.
Defined.

(* ================================================================== *)
(** * Handlers keep the keys unique; updates and deletions in context *)
(* ================================================================== *)

Lemma create_customer_inv (ctx : Context) (customer : CustomerCreate)
  (w w' : World) (r : CustomerResponse) :
  create_customer ctx customer w = (Ok r, w') ->
  exists row,
    pk_taken Customer.id (uuid4 ctx) (customers w) = false
    /\ Customer.id row = uuid4 ctx
    /\ r = CustomerResponse_of row
    /\ w' = set_customers (customers w ++ [row]) w.
Proof.
  unfold create_customer, bind, add_customer.
  cbn [Customer.arr_usd Customer.id].
  destruct (numeric_14_2 _); [|discriminate].
  destruct (pk_taken Customer.id (uuid4 ctx) (customers w)); [discriminate|].
  intros H. injection H as <- <-. eexists. repeat split; reflexivity.
Qed.

Lemma create_contact_inv (ctx : Context) (customer_id : str)
  (contact : ContactCreate) (w w' : World) (r : ContactResponse) :
  create_contact ctx customer_id contact w = (Ok r, w') ->
  pk_taken Contact.id (uuid4 ctx) (contacts w) = false
  /\ w' = set_contacts (contacts w ++ [contact_row ctx customer_id contact]) w.
Proof.
  unfold create_contact, bind, query_customer, gets.
  destruct (first _); [|discriminate].
  unfold add_contact. cbn [Contact.email Contact.id].
  destruct (negb (is_some (cn_email contact))); [discriminate|].
  destruct (pk_taken Contact.id (uuid4 ctx) (contacts w)); [discriminate|].
  intros H. injection H as <- <-. split; reflexivity.
Qed.

Lemma upload_inv (ctx : Context) (disk_ok : bool) (meeting_id : str)
  (file : UploadFile) (w w' : World) (r : UploadResult) :
  upload_meeting_asset ctx disk_ok meeting_id file w = (Ok r, w') ->
  exists content_type_,
    content_type file = Some content_type_
    /\ pk_taken MeetingAsset.id (uuid4 ctx) (meeting_assets w) = false
    /\ w' = set_meeting_assets
              (meeting_assets w
                 ++ [asset_row ctx meeting_id file content_type_])
              (written (stored_path meeting_id file) (body file) w).
Proof.
  unfold upload_meeting_asset, bind, query_meeting, gets, save_file, modify.
  destruct (first _); [|discriminate].
  destruct disk_ok; [|discriminate].
  destruct (content_type file) as [ct|]; [|discriminate].
  unfold add_meeting_asset.
  cbn [MeetingAsset.kind MeetingAsset.id meeting_assets set_files].
  match goal with
  | |- context [negb ?b || _] => destruct (negb b)
  end; [discriminate|].
  destruct (pk_taken MeetingAsset.id (uuid4 ctx) (meeting_assets w));
    [discriminate|].
  intros H. injection H as <- <-. exists ct. repeat split; reflexivity.
Qed.

Lemma update_customer_inv (customer_id : str)
  (customer_update : CustomerUpdate) (w w' : World) (r : CustomerResponse) :
  update_customer customer_id customer_update w = (Ok r, w') ->
  exists customer row,
    first (filter (fun c => str_eqb (Customer.id c) customer_id) (customers w))
    = Some customer
    /\ setattr_all customer (dict_exclude_unset customer_update) = Some row
    /\ r = CustomerResponse_of row
    /\ w' = set_customers (replace_customer row (customers w)) w.
Proof.
  unfold update_customer, bind, query_customer, gets, modify.
  destruct (first _) as [customer|] eqn:Q; [|discriminate].
  destruct (setattr_all _ _) as [row|] eqn:S; [|discriminate].
  intros H. injection H as <- <-. exists customer, row.
  repeat split; assumption || reflexivity.
Qed.

Lemma delete_customer_inv (customer_id : str) (w w' : World) (r : str) :
  delete_customer customer_id w = (Ok r, w') ->
  exists customer,
    In customer (customers w) /\ Customer.id customer = customer_id
    /\ w' = delete_customer_cascade customer w.
Proof.
  unfold delete_customer, bind, query_customer, gets, modify.
  destruct (first _) as [customer|] eqn:Q; [|discriminate].
  apply first_filter_some in Q as [Qin Qid]. apply str_eqb_eq in Qid.
  intros H. injection H as <- <-. now exists customer.
Qed.

Lemma replace_customer_ids (row : Customer.t) (rows : list Customer.t) :
  map Customer.id (replace_customer row rows) = map Customer.id rows.
Proof.
  unfold replace_customer. rewrite map_map. apply map_ext. intros r.
  destruct (str_eqb (Customer.id r) (Customer.id row)) eqn:E;
    [|reflexivity].
  apply str_eqb_eq in E. congruence.
Qed.

Lemma delete_customer_cascade_unique (c : Customer.t) (w : World) :
  unique_ids w -> unique_ids (delete_customer_cascade c w).
Proof.
  intros U. unfold delete_customer_cascade.
  set (w1 := set_contacts _ w).
  assert (U1 : unique_ids w1).
  { destruct U. constructor; simpl; auto. now apply NoDup_map_filter. }
  destruct (delete_meetings_exact (Customer_meetings w c) U1) as (U2 & _).
  destruct U2. constructor; simpl; auto. apply NoDup_map_filter.
  now destruct U.
Qed.

(** X15.  No handler breaks the uniqueness of primary keys: if the keys of
    every table are unique before a request, they are unique in the state
    a successful request leaves. *)
Theorem handlers_keep_ids_unique (ctx : Context) (w w' : World) :
  unique_ids w ->
  (forall customer r, create_customer ctx customer w = (Ok r, w') ->
                      unique_ids w')
  /\ (forall customer_id customer_update r,
        update_customer customer_id customer_update w = (Ok r, w') ->
        unique_ids w')
  /\ (forall customer_id r,
        delete_customer customer_id w = (Ok r, w') -> unique_ids w')
  /\ (forall customer_id contact r,
        create_contact ctx customer_id contact w = (Ok r, w') ->
        unique_ids w')
  /\ (forall disk_ok meeting_id file r,
        upload_meeting_asset ctx disk_ok meeting_id file w = (Ok r, w') ->
        unique_ids w')
  /\ (forall meeting_id language r,
        create_ai_summary ctx meeting_id language w = (Ok r, w') ->
        unique_ids w')
  /\ (forall meeting_id language r,
        create_email_draft ctx meeting_id language w = (Ok r, w') ->
        unique_ids w').
Proof.
  intros U. pose proof U as [Uc Uk Um Ua Us Ud].
  split; [|split; [|split; [|split; [|split; [|split]]]]].
  - intros customer r H.
    apply create_customer_inv in H as (row & Hpk & Hid & _ & ->).
    constructor; simpl; auto. apply NoDup_map_snoc; [exact Uc|].
    now rewrite Hid.
  - intros customer_id customer_update r H.
    apply update_customer_inv in H as (c & row & _ & _ & _ & ->).
    constructor; simpl; auto. now rewrite replace_customer_ids.
  - intros customer_id r H.
    apply delete_customer_inv in H as (c & _ & _ & ->).
    now apply delete_customer_cascade_unique.
  - intros customer_id contact r H.
    apply create_contact_inv in H as (Hpk & ->).
    constructor; simpl; auto. now apply NoDup_map_snoc.
  - intros disk_ok meeting_id file r H.
    apply upload_inv in H as (ct & _ & Hpk & ->).
    constructor; simpl; auto. now apply NoDup_map_snoc.
  - intros meeting_id language r H.
    apply create_ai_summary_inv in H as (m & _ & Hpk & _ & _ & ->).
    constructor; simpl; auto. now apply NoDup_map_snoc.
  - intros meeting_id language r H.
    apply create_email_draft_inv in H as (m & _ & Hpk & _ & _ & ->).
    constructor; simpl; auto. now apply NoDup_map_snoc.
Qed.

Lemma handlers_keep_ids_unique_witness :
  create_contact (request "k-5") (u "c-2") zed two_customers
  = (Ok (ContactResponse_of (contact_row (request "k-5") (u "c-2") zed)),
     set_contacts
       (contacts two_customers ++ [contact_row (request "k-5") (u "c-2") zed])
       two_customers)
  /\ unique_ids
       (set_contacts
          (contacts two_customers
             ++ [contact_row (request "k-5") (u "c-2") zed])
          two_customers).
Proof.
  split; [reflexivity|].
  destruct (@handlers_keep_ids_unique (request "k-5") two_customers
              (set_contacts
                 (contacts two_customers
                    ++ [contact_row (request "k-5") (u "c-2") zed])
                 two_customers) two_customers_unique)
    as (_ & _ & _ & C & _).
  apply (C (u "c-2") zed
           (ContactResponse_of (contact_row (request "k-5") (u "c-2") zed))).
  reflexivity.
Defined.










(* ================================================================== *)
(** * What the generated texts contain *)
(* ================================================================== *)

Lemma occurs_here (x post : str) : occurs_in x (x ++ post).
Proof. now exists [], post. Qed.

Lemma occurs_later (x a b : str) : occurs_in x b -> occurs_in x (a ++ b).
Proof.
  intros (pre & post & ->). exists (a ++ pre), post. now rewrite app_assoc.
Qed.

Ltac occurs_tac :=
  repeat match goal with
         | |- occurs_in ?x (?x ++ _) => apply occurs_here
         | |- occurs_in _ (_ ++ _) => apply occurs_later
         end.

Lemma strip_solid (a r : str) :
  lstrip a = a -> a <> [] -> solid_end (a ++ r) -> strip (a ++ r) = a ++ r.
Proof.
  intros Ha Hn [Hr _]. unfold strip. now rewrite (lstrip_app _ Ha Hn).
Qed.

Lemma summary_text (meeting : Meeting.t) (language : str) :
  generate_meeting_summary meeting language
  = if str_eqb language (u "he") then summary_text_he meeting
    else summary_text_en meeting.
Proof.
  destruct (str_eqb language (u "he")) eqn:E.
  - apply str_eqb_eq in E. subst. apply summary_he_text.
  - apply str_eqb_neq in E. now apply summary_en_text.
Qed.

(** X19.  The summary is the template of the language with the title and
    the notes put in as they are: the title occurs in it, the notes occur
    in it when there are any, the placeholder of the language occurs in it
    when the notes are absent or empty; and the text has no white space at
    either end left to strip. *)
Theorem summary_embeds_title_and_notes (meeting : Meeting.t)
  (language : str) :
  occurs_in (Meeting.title meeting)
    (generate_meeting_summary meeting language)
  /\ (forall notes, Meeting.raw_notes meeting = Some notes -> notes <> [] ->
      occurs_in notes (generate_meeting_summary meeting language))
  /\ (opt_truthy (Meeting.raw_notes meeting) = false ->
      occurs_in (summary_placeholder language)
        (generate_meeting_summary meeting language))
  /\ strip (generate_meeting_summary meeting language)
     = generate_meeting_summary meeting language.
Proof.
  rewrite summary_text. unfold summary_placeholder.
  destruct (str_eqb language (u "he")).
  - unfold summary_text_he. split; [occurs_tac|]. split; [|split].
    + intros notes Hn Hne. rewrite Hn.
      assert (E : or_else (Some notes) (u "אין הערות זמינות") = notes)
        by (destruct notes; [congruence | reflexivity]).
      rewrite E. occurs_tac.
    + intros Hn.
      assert (E : or_else (Meeting.raw_notes meeting) (u "אין הערות זמינות")
                  = u "אין הערות זמינות").
      { destruct (Meeting.raw_notes meeting) as [[|c n]|];
          try reflexivity; discriminate Hn. }
      rewrite E. occurs_tac.
    + apply strip_solid;
        [vm_compute; reflexivity | vm_compute; discriminate | solid_end_tac].
  - unfold summary_text_en. split; [occurs_tac|]. split; [|split].
    + intros notes Hn Hne. rewrite Hn.
      assert (E : or_else (Some notes) (u "No notes available") = notes)
        by (destruct notes; [congruence | reflexivity]).
      rewrite E. occurs_tac.
    + intros Hn.
      assert (E : or_else (Meeting.raw_notes meeting) (u "No notes available")
                  = u "No notes available").
      { destruct (Meeting.raw_notes meeting) as [[|c n]|];
          try reflexivity; discriminate Hn. }
      rewrite E. occurs_tac.
    + apply strip_solid;
        [vm_compute; reflexivity | vm_compute; discriminate | solid_end_tac].
Qed.

Lemma summary_embeds_title_and_notes_witness :
  occurs_in (u "Renewal") (generate_meeting_summary globex_meeting (u "en"))
  /\ occurs_in (u "No notes available")
       (generate_meeting_summary kickoff_meeting (u "en")).
Proof.
  destruct (summary_embeds_title_and_notes globex_meeting (u "en"))
    as (_ & N & _).
  destruct (summary_embeds_title_and_notes kickoff_meeting (u "en"))
    as (_ & _ & P & _).
  split.
  - apply N; [reflexivity | vm_compute; discriminate].
  - apply (P eq_refl).
Defined.


Lemma lstrip_blank_app (a s : str) :
  forallb isspace a = true -> lstrip (a ++ s) = lstrip s.
Proof.
  induction a as [|c a IH]; simpl; [reflexivity|].
  intros H. apply andb_true_iff in H as [Hc Ha]. now rewrite Hc, IH.
Qed.

Lemma strip_app_blank (s b : str) :
  forallb isspace b = true -> strip (s ++ b) = strip s.
Proof.
  intros Hb. unfold strip. induction s as [|c s IH]; simpl.
  - rewrite (@lstrip_blank b Hb). reflexivity.
  - destruct (isspace c); [exact IH|].
    change (c :: s ++ b) with ((c :: s) ++ b).
    now apply rstrip_app_blank.
Qed.

Lemma strip_padding (a s b : str) :
  forallb isspace a = true -> forallb isspace b = true ->
  strip (a ++ s ++ b) = strip s.
Proof.
  intros Ha Hb. unfold strip at 1. rewrite (@lstrip_blank_app a (s ++ b) Ha).
  now apply strip_app_blank.
Qed.

(** X21.  White space around the title hint does not show in the title: a
    hint padded with white space on either side gives the title of the
    bare hint, so the title never starts or ends its hint part with white
    space. *)
Theorem title_ignores_padding (m : Meeting.t) (before hint after : str) :
  forallb isspace before = true -> forallb isspace after = true ->
  Meeting.title (with_hint m (Some (before ++ hint ++ after)))
  = Meeting.title (with_hint m (Some hint))
  /\ Meeting.title (with_hint m (Some (before ++ after)))
     = Meeting.title (with_hint m None).
Proof.
  intros Hb Ha. rewrite !title_format. cbn [with_hint Meeting.meeting_date
                                           Meeting._title_hint].
  unfold hint_or_default. rewrite (@strip_padding before hint after Hb Ha).
  split;
    [reflexivity|].
  rewrite strip_blank; [reflexivity|].
  rewrite forallb_app, Hb, Ha. reflexivity.
Qed.

Lemma title_ignores_padding_witness :
  Meeting.title (with_hint kickoff_meeting (Some (u "  " ++ u "QBR" ++ u " ")))
  = Meeting.title (with_hint kickoff_meeting (Some (u "QBR"))).
Proof.
  apply (@title_ignores_padding kickoff_meeting (u "  ") (u "QBR") (u " "));
    reflexivity.
Defined.

(* ================================================================== *)
(** * Reading back what was stored *)
(* ================================================================== *)

(** X22.  A created contact becomes a recipient.  After a successful
    creation the address of the contact is the last of the addresses of its
    customer, and the addresses of every other customer are as before; so
    the next draft of that customer lists the address as a "to" address if
    the customer had fewer than two addressed contacts, and as a "cc"
    address otherwise. *)
Theorem new_contact_becomes_recipient (ctx : Context) (customer_id : str)
  (contact : ContactCreate) (w w' : World) (r : ContactResponse) :
  create_contact ctx customer_id contact w = (Ok r, w') ->
  exists e,
    cn_email contact = Some e
    /\ customer_emails w' customer_id = customer_emails w customer_id ++ [e]
    /\ (forall other, other <> customer_id ->
        customer_emails w' other = customer_emails w other)
    /\ ((List.length (customer_emails w customer_id) < 2)%nat ->
        In e (firstn 2 (customer_emails w' customer_id)))
    /\ ((2 <= List.length (customer_emails w customer_id))%nat ->
        In e (skipn 2 (customer_emails w' customer_id))).
Proof.
  intros H. pose proof H as H0.
  apply create_contact_inv in H as (_ & ->).
  assert (He : exists e, cn_email contact = Some e).
  { unfold create_contact, bind, query_customer, gets in H0.
    destruct (first _); [|discriminate].
    unfold add_contact in H0. cbn [Contact.email] in H0.
    destruct (cn_email contact) as [e|]; [now exists e | discriminate]. }
  destruct He as [e He]. exists e. split; [exact He|].
  assert (A : customer_emails
                (set_contacts
                   (contacts w ++ [contact_row ctx customer_id contact]) w)
                customer_id
              = customer_emails w customer_id ++ [e]).
  { unfold customer_emails. simpl. rewrite flat_map_app. simpl.
    now rewrite str_eqb_refl, He. }
  split; [exact A|]. split.
  { intros other Ho. unfold customer_emails. simpl.
    rewrite flat_map_app. simpl.
    assert (E : str_eqb customer_id other = false)
      by (apply str_eqb_neq; congruence).
    rewrite E. apply app_nil_r. }
  rewrite A. split.
  - intros Hl. rewrite firstn_all2 by (rewrite length_app; simpl; lia).
    apply in_or_app. right. now left.
  - intros Hl. rewrite skipn_app.
    apply in_or_app. right.
    replace (2 - List.length (customer_emails w customer_id))%nat with 0%nat
      by lia.
    now left.
Qed.

Lemma new_contact_becomes_recipient_witness :
  exists r w',
    create_contact (request "k-5") (u "c-1") zed demo_world = (Ok r, w')
    /\ In (u "zed@acme.example") (skipn 2 (customer_emails w' (u "c-1"))).
Proof.
  pose proof (@create_contact_ok (request "k-5") (u "c-1")
                (u "zed@acme.example") zed demo_world acme
                eq_refl eq_refl eq_refl) as E.
  eexists. eexists. split; [exact E|].
  destruct (new_contact_becomes_recipient _ _ _ _ E)
    as (e & He & _ & _ & _ & Hcc).
  injection He as <-. apply Hcc. vm_compute. lia.
Defined.




(** X24.  Reading does not write.  The reading handlers (the listing of
    customers, the fetch of a customer, the listing of its meetings, the
    fetch of a meeting, the current user, logout) leave the state as it
    was on every input, whether they answer or fail. *)
Theorem reading_handlers_do_not_write (ctx : Context) (w : World) :
  (forall search limit offset, snd (get_customers search limit offset w) = w)
  /\ (forall customer_id, snd (get_customer customer_id w) = w)
  /\ (forall customer_id, snd (get_customer_meetings customer_id w) = w)
  /\ (forall meeting_id, snd (get_meeting meeting_id w) = w)
  /\ snd (get_current_user_info ctx w) = w
  /\ snd (logout w) = w.
Proof.
  repeat split.
  - intros search limit offset. unfold get_customers, bind, gets, ret, raise.
    destruct (opt_truthy search).
    + destruct (ilike _);
        destruct ((limit <? 0) || (offset <? 0))%Z; reflexivity.
    + destruct ((limit <? 0) || (offset <? 0))%Z; reflexivity.
  - intros customer_id. unfold get_customer, bind, query_customer, gets.
    now destruct (first _).
  - intros meeting_id. unfold get_meeting, bind, query_meeting, gets.
    now destruct (first _).
Qed.
